(** * The investment calculator of the "about" page

    A shallow embedding of [class InvestmentCalculator] of
    [about-script.js] (lines 1497-1664) and of the part of its DOM
    plumbing that decides what the widget shows.

    The second half of the file covers the rest of the script that computes
    something: the handlers of the calculator, [formatNumber] and the
    counter animation, the reading time, the e-mail check of the newsletter
    form, the reading progress, [isInViewport], the easing of
    [smoothScrollTo], the FAQ accordion, the mobile menu, the table of
    contents and the contrast toggle.  Timers ([debounce], [throttle],
    [setTimeout]) are not modelled: a handler is modelled as the function it
    runs when it fires.

    ** Numbers

    A JavaScript Number is a binary64 floating-point number.  The
    calculator is embedded twice.

    - [Module Binary64] is the calculator on Rocq's primitive binary64
      numbers, operation by operation in the order the source writes them,
      with [NaN], the infinities and the two zeros.  Statements on the
      values the calculator computes are made there.  [Math.pow] is the one
      operation whose result ECMAScript leaves to the engine
      ("implementation-approximated"); it is a parameter of that model.

    - The definitions outside that module take a Number for an exact
      rational ([Q]) and leave the rounding of the operations out.  The
      values that have no rational counterpart are modelled by absence:
      [NaN] as a parse result (missing element, non-numeric text) is [None]
      in [option Q], an infinite parse result is not in this model, and a
      division by zero has no value: every division of the source is the
      checked [Js.div], and a computation that hits one yields [None].  The
      exponent of [Math.pow] is a whole number of payments there.  This is
      the model for what does not depend on the last bit of a result: which
      branch a run takes, whether a division by zero can occur, the grade of
      given figures, figures up to a stated tolerance.

    Two rationals are compared by their value ([==], [Qeq]), never by their
    representation; two binary64 numbers by Leibniz equality, which tells
    the two zeros apart and not two [NaN]. *)

From Stdlib Require Import QArith Qpower Qabs Lqa Lia ZArith Bool String.
From Stdlib Require Import List Qminmax Qround NArith Ascii.
From Stdlib Require Import Floats.
From Stdlib Require Decimal DecimalPos.
Import ListNotations.

(** A decimal literal stands for the binary64 number nearest to it, as in
    the source. *)
Set Warnings "-inexact-float".

Local Open Scope Q_scope.

(** ** JavaScript arithmetic over exact rationals *)

Module Js.

(** [a < b], [a <= b], [a > b], [a >= b], [a === b] on numbers. *)
Definition lt (a b : Q) : bool := negb (Qle_bool b a).
Definition le (a b : Q) : bool := Qle_bool a b.
Definition gt (a b : Q) : bool := lt b a.
Definition ge (a b : Q) : bool := le b a.
Definition eq (a b : Q) : bool := Qeq_bool a b.

(** [a / b]: no value when [b] is zero. *)
Definition div (a b : Q) : option Q :=
  if Qeq_bool b 0 then None else Some (a / b).

(** [Math.pow(x, n)] for an integral exponent [n]: [x] multiplied [n]
    times, its inverse for a negative [n]; no value for a zero base and a
    negative exponent (an infinity in JavaScript). *)
Definition pow (x : Q) (n : Z) : option Q :=
  if (Qeq_bool x 0 && (n <? 0)%Z)%bool then None else Some (x ^ n).

(** [parseFloat(...) || d]: the parse result, unless it is falsy ([NaN]
    or zero), in which case the default [d]. *)
Definition or_default (v : option Q) (d : Q) : Q :=
  match v with
  | Some q => if Qeq_bool q 0 then d else q
  | None => d
  end.

Definition bind {A B : Type} (m : option A) (k : A -> option B) : option B :=
  match m with
  | Some a => k a
  | None => None
  end.

End Js.

Notation "x <- m ;; k" := (Js.bind m (fun x => k))
  (at level 61, m at next level, right associativity).

(** ** The data of the calculator *)

(** The five labels [getInvestmentGrade] can return. *)
Inductive Grade : Type :=
| PoorNegativeCashFlow
| Excellent
| Good
| Fair
| BelowAverage.

Definition grade_label (g : Grade) : string :=
  match g with
  | PoorNegativeCashFlow => "Poor - Negative Cash Flow"
  | Excellent => "Excellent"
  | Good => "Good"
  | Fair => "Fair"
  | BelowAverage => "Below Average"
  end.

(** The constants [calculateROI] has computed when it renders the result
    card, and the grade the card shows. *)
Record CalculatorResult : Type := mkResult {
  downPayment : Q;
  loanAmount : Q;
  monthlyMortgage : Q;
  monthlyExpenses : Q;
  monthlyCashFlow : Q;
  annualCashFlow : Q;
  cashOnCashReturn : Q;
  capRate : Q;
  onePercentRule : Q;
  grade : Grade
}.

(** What [calculateROI] hands to [showResult]: the error text with type
    "error", or the result card with type "success". *)
Inductive Shown : Type :=
| ShowError (message : string)
| ShowSuccess (result : CalculatorResult).

Definition invalid_input_message : string :=
  "Please enter valid property price and monthly rent.".

(** ** The methods of [InvestmentCalculator] *)

(** [calculateMortgagePayment(principal, annualRate, years)], lines
    1643-1656; the loan term is a whole number of years. *)
Definition calculateMortgagePayment
    (principal annualRate : Q) (years : Z) : option Q :=
  monthlyRate <- Js.div annualRate 12 ;;
  let numPayments := (years * 12)%Z in
  if Js.eq monthlyRate 0 then
    Js.div principal (inject_Z numPayments)
  else
    p1 <- Js.pow (1 + monthlyRate) numPayments ;;
    p2 <- Js.pow (1 + monthlyRate) numPayments ;;
    Js.div (principal * (monthlyRate * p1)) (p2 - 1).

(** [getInvestmentGrade(cashOnCashReturn, capRate, monthlyCashFlow)], lines
    1658-1664. *)
Definition getInvestmentGrade
    (cashOnCashReturn capRate monthlyCashFlow : Q) : Grade :=
  if Js.lt monthlyCashFlow 0 then PoorNegativeCashFlow
  else if (Js.ge cashOnCashReturn 12 && Js.ge capRate 8)%bool then Excellent
  else if (Js.ge cashOnCashReturn 8 && Js.ge capRate 6)%bool then Good
  else if (Js.ge cashOnCashReturn 5 && Js.ge capRate 4)%bool then Fair
  else BelowAverage.

(** [hasValidInputs()], lines 1542-1548, on the parsed field values. *)
Definition hasValidInputs (price_field rent_field : option Q) : bool :=
  let propertyPrice := Js.or_default price_field 0 in
  let monthlyRent := Js.or_default rent_field 0 in
  (Js.gt propertyPrice 0 && Js.gt monthlyRent 0)%bool.

(** [calculateROI()], lines 1550-1641, as a function of the three parsed
    field values ([None]: the element is missing or its text is not a
    number).  The result is what is passed to [showResult]; the formatting of
    the numbers into the HTML of the card is not modelled. *)
Definition calculateROI
    (price_field down_field rent_field : option Q) : option Shown :=
  let propertyPrice := Js.or_default price_field 0 in
  let downPaymentPercent := Js.or_default down_field 20 in
  let monthlyRent := Js.or_default rent_field 0 in
  if (Js.le propertyPrice 0 || Js.le monthlyRent 0)%bool then
    Some (ShowError invalid_input_message)
  else
    pct <- Js.div downPaymentPercent 100 ;;
    let downPayment := propertyPrice * pct in
    let loanAmount := propertyPrice - downPayment in
    monthlyMortgage <- calculateMortgagePayment loanAmount 0.065 30 ;;
    monthlyExpenses <- Js.div (propertyPrice * 0.01) 12 ;;
    let monthlyCashFlow := monthlyRent - monthlyMortgage - monthlyExpenses in
    let annualCashFlow := monthlyCashFlow * 12 in
    cashOnCashReturn <-
      (if Js.gt downPayment 0 then
         q <- Js.div annualCashFlow downPayment ;; Some (q * 100)
       else Some 0) ;;
    q1 <- Js.div (monthlyRent * 12 - propertyPrice * 0.01) propertyPrice ;;
    let capRate := q1 * 100 in
    q2 <- Js.div monthlyRent propertyPrice ;;
    let onePercentRule := q2 * 100 in
    Some (ShowSuccess
            (mkResult downPayment loanAmount monthlyMortgage monthlyExpenses
               monthlyCashFlow annualCashFlow cashOnCashReturn capRate
               onePercentRule
               (getInvestmentGrade cashOnCashReturn capRate monthlyCashFlow))).

(** ** The DOM the calculator reads and writes *)

(** The [#calc-result] element: its content and its class. *)
Record ResultElement : Type := mkElement {
  innerHTML : option Shown;
  className : string
}.

(** The part of the page the calculator touches: the parsed values of the
    three inputs, the result element (absent on a page without one) and
    whether the [#calc-styles] sheet is in the head. *)
Record Document : Type := mkDocument {
  property_price : option Q;
  down_payment : option Q;
  monthly_rent : option Q;
  calc_result : option ResultElement;
  calc_styles : bool
}.

(** [showResult(content, type)], lines 1666-1681: nothing without a result
    element; otherwise the content and the class are set and
    [addCalculatorStyles] makes sure the style sheet is there.  Scrolling the
    element into view changes nothing of this state. *)
Definition showResult (content : Shown) (type : string) (doc : Document)
  : Document :=
  match calc_result doc with
  | None => doc
  | Some _ =>
      mkDocument (property_price doc) (down_payment doc) (monthly_rent doc)
        (Some (mkElement (Some content) ("calc-result show " ++ type)))
        true
  end.

Definition shown_type (s : Shown) : string :=
  match s with
  | ShowError _ => "error"
  | ShowSuccess _ => "success"
  end.

(** [calculateROI()] as the method it is: it reads the three inputs of the
    page and shows the outcome in the result element. *)
Definition calculateROI_on (doc : Document) : option Document :=
  s <- calculateROI (property_price doc) (down_payment doc)
         (monthly_rent doc) ;;
  Some (showResult s (shown_type s) doc).

(** ** Vocabulary of the statements *)

(** The price or the rent the engine works with: the field's number, zero
    when the field is missing, not a number or zero. *)
Definition effective (field : option Q) : Q := Js.or_default field 0.

(** The decision table of the specification, one row per grade: the
    condition under which the row is the first that matches. *)
Definition spec_gradeInvestment (coc capRate cashFlow : Q) (g : Grade) : Prop :=
  match g with
  | PoorNegativeCashFlow => cashFlow < 0
  | Excellent => ~ cashFlow < 0 /\ (12 <= coc /\ 8 <= capRate)
  | Good =>
      ~ cashFlow < 0 /\ ~ (12 <= coc /\ 8 <= capRate)
      /\ (8 <= coc /\ 6 <= capRate)
  | Fair =>
      ~ cashFlow < 0 /\ ~ (12 <= coc /\ 8 <= capRate)
      /\ ~ (8 <= coc /\ 6 <= capRate) /\ (5 <= coc /\ 4 <= capRate)
  | BelowAverage =>
      ~ cashFlow < 0 /\ ~ (12 <= coc /\ 8 <= capRate)
      /\ ~ (8 <= coc /\ 6 <= capRate) /\ ~ (5 <= coc /\ 4 <= capRate)
  end.

(** The payment of [calculateROI]'s loan: 6.5% a year over 30 years, with
    the divisions carried out. *)
Definition amortized30 (loanAmount : Q) : Q :=
  loanAmount * (0.065 / 12 * (1 + 0.065 / 12) ^ (30 * 12))
  / ((1 + 0.065 / 12) ^ (30 * 12) - 1).

(** The result card of [calculateROI] with every division carried out;
    [calculateROI_valid] proves that this is what a valid input yields. *)
Definition result_card (propertyPrice downPaymentPercent monthlyRent : Q)
  : CalculatorResult :=
  let downPayment := propertyPrice * (downPaymentPercent / 100) in
  let loanAmount := propertyPrice - downPayment in
  let monthlyMortgage := amortized30 loanAmount in
  let monthlyExpenses := propertyPrice * 0.01 / 12 in
  let monthlyCashFlow := monthlyRent - monthlyMortgage - monthlyExpenses in
  let annualCashFlow := monthlyCashFlow * 12 in
  let cashOnCashReturn :=
    if Js.gt downPayment 0 then annualCashFlow / downPayment * 100 else 0 in
  let capRate :=
    (monthlyRent * 12 - propertyPrice * 0.01) / propertyPrice * 100 in
  let onePercentRule := monthlyRent / propertyPrice * 100 in
  mkResult downPayment loanAmount monthlyMortgage monthlyExpenses
    monthlyCashFlow annualCashFlow cashOnCashReturn capRate onePercentRule
    (getInvestmentGrade cashOnCashReturn capRate monthlyCashFlow).

(** The formulas of section 3 of the specification as a property of a
    result over the rationals, where the order of the operations does not
    matter; [Binary64.section3_formulas] is their binary64 counterpart. *)
Definition section3_formulas
    (propertyPrice downPaymentPercent monthlyRent : Q) (res : CalculatorResult)
  : Prop :=
  downPayment res == propertyPrice * downPaymentPercent / 100
  /\ loanAmount res == propertyPrice - downPayment res
  /\ monthlyExpenses res == propertyPrice * 0.01 / 12
  /\ monthlyCashFlow res
     == monthlyRent - monthlyMortgage res - monthlyExpenses res
  /\ annualCashFlow res == monthlyCashFlow res * 12
  /\ (0 < downPayment res ->
      cashOnCashReturn res == annualCashFlow res / downPayment res * 100)
  /\ (~ 0 < downPayment res -> cashOnCashReturn res == 0)
  /\ capRate res
     == (monthlyRent * 12 - propertyPrice * 0.01) / propertyPrice * 100
  /\ onePercentRule res == monthlyRent / propertyPrice * 100.

(** [value] agrees with the printed decimal up to [tolerance]; for a
    number printed with k decimals the tolerance is half a unit of the k-th
    decimal. *)
Definition approx (value printed tolerance : Q) : Prop :=
  Qabs (value - printed) <= tolerance.

(** The figures the specification gives for a price of 300000, 20 percent
    down and a rent of 2000. *)
Definition scenario_as_specified (res : CalculatorResult) : Prop :=
  downPayment res == 60000
  /\ loanAmount res == 240000
  /\ approx (monthlyMortgage res) 1517.44 0.005
  /\ monthlyExpenses res == 250
  /\ approx (monthlyCashFlow res) 232.56 0.005
  /\ approx (annualCashFlow res) 2790.72 0.005
  /\ approx (cashOnCashReturn res) 4.65 0.005
  /\ capRate res == 7
  /\ approx (onePercentRule res) 0.667 0.0005
  /\ grade res = BelowAverage.

(** The same scenario with the figures the code computes; the cap rate,
    7.000000000000001 in binary64, is given to its one decimal. *)
Definition scenario_as_computed (res : CalculatorResult) : Prop :=
  downPayment res == 60000
  /\ loanAmount res == 240000
  /\ approx (monthlyMortgage res) 1516.96 0.005
  /\ monthlyExpenses res == 250
  /\ approx (monthlyCashFlow res) 233.04 0.005
  /\ approx (annualCashFlow res) 2796.44 0.005
  /\ approx (cashOnCashReturn res) 4.66 0.005
  /\ approx (capRate res) 7.0 0.05
  /\ approx (onePercentRule res) 0.667 0.0005
  /\ grade res = BelowAverage.

(** ** The calculator in binary64 *)

Module Binary64.

Local Open Scope float_scope.

(** [x || d]: [x] unless it is falsy ([NaN], [+0] or [-0]). *)
Definition or_default (x d : float) : float :=
  if (is_nan x || (x =? 0))%bool then d else x.

(** The constants [calculateROI] has computed when it renders the result
    card, and the grade the card shows. *)
Record CalculatorResult : Type := mkResult {
  downPayment : float;
  loanAmount : float;
  monthlyMortgage : float;
  monthlyExpenses : float;
  monthlyCashFlow : float;
  annualCashFlow : float;
  cashOnCashReturn : float;
  capRate : float;
  onePercentRule : float;
  grade : Grade
}.

Inductive Shown : Type :=
| ShowError (message : string)
| ShowSuccess (result : CalculatorResult).

(** [getInvestmentGrade], lines 1658-1664; a test on [NaN] fails. *)
Definition getInvestmentGrade
    (cashOnCashReturn capRate monthlyCashFlow : float) : Grade :=
  if monthlyCashFlow <? 0 then PoorNegativeCashFlow
  else if ((12 <=? cashOnCashReturn) && (8 <=? capRate))%bool then Excellent
  else if ((8 <=? cashOnCashReturn) && (6 <=? capRate))%bool then Good
  else if ((5 <=? cashOnCashReturn) && (4 <=? capRate))%bool then Fair
  else BelowAverage.

(** The classes the template of the result card gives to the cash flow, the
    cash-on-cash return and the cap rate, lines 1588-1609. *)
Definition cashFlowClass (monthlyCashFlow : float) : string :=
  if 0 <=? monthlyCashFlow then "positive" else "negative".

Definition cashOnCashClass (cashOnCashReturn : float) : string :=
  if 8 <=? cashOnCashReturn then "positive" else "neutral".

Definition capRateClass (capRate : float) : string :=
  if 6 <=? capRate then "positive" else "neutral".

Section Engine.

(** What the engine returns for a power that ECMAScript does not fix. *)
Variable pow_approx : float -> float -> float.

(** [Math.pow(base, exponent)].  The first three cases are those of
    ECMAScript's Number::exponentiate, in its order.  A base of 1 with a
    finite exponent gives 1, as the pow of the C library the engines call
    does.  Every other power is the engine's. *)
Definition Math_pow (base exponent : float) : float :=
  if is_nan exponent then nan
  else if exponent =? 0 then 1
  else if is_nan base then nan
  else if ((base =? 1) && is_finite exponent)%bool then 1
  else pow_approx base exponent.

(** [calculateMortgagePayment(principal, annualRate, years)], lines
    1643-1656. *)
Definition calculateMortgagePayment (principal annualRate years : float)
  : float :=
  let monthlyRate := annualRate / 12 in
  let numPayments := years * 12 in
  if monthlyRate =? 0 then principal / numPayments
  else
    (principal * (monthlyRate * Math_pow (1 + monthlyRate) numPayments))
    / (Math_pow (1 + monthlyRate) numPayments - 1).

(** [calculateROI()], lines 1550-1641, as a function of the three parse
    results ([NaN]: the element is missing or its text is not a number). *)
Definition calculateROI (price_field down_field rent_field : float) : Shown :=
  let propertyPrice := or_default price_field 0 in
  let downPaymentPercent := or_default down_field 20 in
  let monthlyRent := or_default rent_field 0 in
  if ((propertyPrice <=? 0) || (monthlyRent <=? 0))%bool then
    ShowError invalid_input_message
  else
    let downPayment := propertyPrice * (downPaymentPercent / 100) in
    let loanAmount := propertyPrice - downPayment in
    let monthlyMortgage := calculateMortgagePayment loanAmount 0.065 30 in
    let monthlyExpenses := (propertyPrice * 0.01) / 12 in
    let monthlyCashFlow := monthlyRent - monthlyMortgage - monthlyExpenses in
    let annualCashFlow := monthlyCashFlow * 12 in
    let cashOnCashReturn :=
      if 0 <? downPayment then (annualCashFlow / downPayment) * 100 else 0 in
    let capRate :=
      ((monthlyRent * 12 - propertyPrice * 0.01) / propertyPrice) * 100 in
    let onePercentRule := (monthlyRent / propertyPrice) * 100 in
    ShowSuccess
      (mkResult downPayment loanAmount monthlyMortgage monthlyExpenses
         monthlyCashFlow annualCashFlow cashOnCashReturn capRate
         onePercentRule
         (getInvestmentGrade cashOnCashReturn capRate monthlyCashFlow)).

(** The amortization formula as the specification writes it, evaluated
    from left to right. *)
Definition amortization_as_stated (principal monthlyRate n : float) : float :=
  principal * monthlyRate * Math_pow (1 + monthlyRate) n
  / (Math_pow (1 + monthlyRate) n - 1).

(** The amortization formula with the product of the rate and the power
    taken first. *)
Definition amortization (principal monthlyRate n : float) : float :=
  principal * (monthlyRate * Math_pow (1 + monthlyRate) n)
  / (Math_pow (1 + monthlyRate) n - 1).

(** The mortgage payment as the specification states it. *)
Definition mortgage_as_stated (principal annualRate years : float) : Prop :=
  ((annualRate / 12 =? 0) = true ->
   calculateMortgagePayment principal annualRate years
   = principal / (years * 12))
  /\ ((annualRate / 12 =? 0) = false ->
      calculateMortgagePayment principal annualRate years
      = amortization_as_stated principal (annualRate / 12) (years * 12)).

(** The specification's account of the branch that sets the cash-on-cash
    return to zero: a result card whose down payment is not above zero
    comes from a negative percent. *)
Definition fallback_needs_negative_percent
    (propertyPrice downPaymentPercent monthlyRent : float) : Prop :=
  forall res,
    calculateROI propertyPrice downPaymentPercent monthlyRent
    = ShowSuccess res ->
    (0 <? downPayment res) = false ->
    (downPaymentPercent <? 0) = true.

End Engine.

(** The formulas of section 3 of the specification but the one of the down
    payment, as a property of a result for a price and a rent. *)
Definition section3_others (propertyPrice monthlyRent : float)
    (res : CalculatorResult) : Prop :=
  loanAmount res = propertyPrice - downPayment res
  /\ monthlyExpenses res = propertyPrice * 0.01 / 12
  /\ monthlyCashFlow res
     = monthlyRent - monthlyMortgage res - monthlyExpenses res
  /\ annualCashFlow res = monthlyCashFlow res * 12
  /\ ((0 <? downPayment res) = true ->
      cashOnCashReturn res = annualCashFlow res / downPayment res * 100)
  /\ ((0 <? downPayment res) = false -> cashOnCashReturn res = 0)
  /\ capRate res
     = (monthlyRent * 12 - propertyPrice * 0.01) / propertyPrice * 100
  /\ onePercentRule res = monthlyRent / propertyPrice * 100.

(** Section 3 as the specification writes it: the down payment is
    [propertyPrice * downPaymentPercent / 100], evaluated from left to
    right. *)
Definition section3_as_stated
    (propertyPrice downPaymentPercent monthlyRent : float)
    (res : CalculatorResult) : Prop :=
  downPayment res = propertyPrice * downPaymentPercent / 100
  /\ section3_others propertyPrice monthlyRent res.

(** Section 3 with the percent divided first. *)
Definition section3_formulas
    (propertyPrice downPaymentPercent monthlyRent : float)
    (res : CalculatorResult) : Prop :=
  downPayment res = propertyPrice * (downPaymentPercent / 100)
  /\ section3_others propertyPrice monthlyRent res.

(** The figures of the scenario (300000, 20 percent, 2000) that do not
    depend on [Math.pow]. *)
Definition scenario_figures_without_pow (res : CalculatorResult) : Prop :=
  downPayment res = 60000
  /\ loanAmount res = 240000
  /\ monthlyExpenses res = 250
  /\ capRate res = 7.000000000000001
  /\ onePercentRule res = 0.6666666666666667.

(** The value of a finite binary64 number. *)
Definition to_Q (x : float) : option Q :=
  match Prim2SF x with
  | S754_zero _ => Some 0%Q
  | S754_finite s m e =>
      Some ((if s then - inject_Z (Zpos m) else inject_Z (Zpos m)) * 2 ^ e)%Q
  | _ => None
  end.

(** An engine for the worked examples.  Whatever it is asked, it answers
    6.991797973867253, the binary64 number nearest to
    [(1 + 0.065 / 12) ^ 360]: the one power [calculateROI] asks for. *)
Definition sample_engine (base exponent : float) : float :=
  6.991797973867253.

(** [1.375 ^ 12 = 11^12 / 8^12], a binary64 number. *)
Definition power_1375_12 : float := 0x1.6d5c744b488p+5.

End Binary64.

(** ** The rest of the calculator widget *)

(** The callback [bindEvents] registers (debounced) on every input of the
    form, lines 1531-1538: recalculate, but only for valid inputs. *)
Definition onInputChange (doc : Document) : option Document :=
  if hasValidInputs (property_price doc) (monthly_rent doc)
  then calculateROI_on doc
  else Some doc.

(** The grades from worst to best. *)
Definition grade_rank (g : Grade) : nat :=
  match g with
  | PoorNegativeCashFlow => 0
  | BelowAverage => 1
  | Fair => 2
  | Good => 3
  | Excellent => 4
  end.

(** ** JavaScript strings

    A string is the list of its UTF-16 code units ([N]); the character
    classes are those of ECMAScript regular expressions. *)

Module Str.

(** The code units of a text written in ASCII. *)
Definition of_string (s : string) : list N :=
  map N_of_ascii (list_ascii_of_string s).

(** [\d]: the ten ASCII digits. *)
Definition is_digit (c : N) : bool := ((48 <=? c) && (c <=? 57))%N.

(** [\w]: ASCII letters, digits and the underscore. *)
Definition is_word (c : N) : bool :=
  (is_digit c || ((65 <=? c) && (c <=? 90)) || ((97 <=? c) && (c <=? 122))
   || (c =? 95))%N.

(** [\s], which is also what [trim] strips: the white space and the line
    terminators of ECMAScript (TAB, LF, VT, FF, CR, SP, NBSP, U+1680,
    U+2000 to U+200A, U+2028, U+2029, U+202F, U+205F, U+3000, U+FEFF). *)
Definition is_whitespace (c : N) : bool :=
  ((c =? 9) || (c =? 10) || (c =? 11) || (c =? 12) || (c =? 13) || (c =? 32)
   || (c =? 160) || (c =? 5760) || ((8192 <=? c) && (c <=? 8202))
   || (c =? 8232) || (c =? 8233) || (c =? 8239) || (c =? 8287)
   || (c =? 12288) || (c =? 65279))%N.

Fixpoint drop_whitespace (s : list N) : list N :=
  match s with
  | c :: tl => if is_whitespace c then drop_whitespace tl else s
  | [] => []
  end.

(** [s.trim()]. *)
Definition trim (s : list N) : list N :=
  rev (drop_whitespace (rev (drop_whitespace s))).

(** [s.split(/\s+/)]: the pieces between the maximal runs of white space,
    the empty piece before a leading run and after a trailing run included;
    [piece] is the current piece in reverse, [in_run] tells whether the
    previous unit was white space. *)
Fixpoint split_go (piece : list N) (in_run : bool) (s : list N)
  : list (list N) :=
  match s with
  | [] => [rev piece]
  | c :: tl =>
      if is_whitespace c then
        if in_run then split_go piece true tl
        else rev piece :: split_go [] true tl
      else split_go (c :: piece) false tl
  end.

Definition split_whitespace (s : list N) : list (list N) :=
  split_go [] false s.

Fixpoint units_of_uint (d : Decimal.uint) : list N :=
  match d with
  | Decimal.Nil => []
  | Decimal.D0 d => 48%N :: units_of_uint d
  | Decimal.D1 d => 49%N :: units_of_uint d
  | Decimal.D2 d => 50%N :: units_of_uint d
  | Decimal.D3 d => 51%N :: units_of_uint d
  | Decimal.D4 d => 52%N :: units_of_uint d
  | Decimal.D5 d => 53%N :: units_of_uint d
  | Decimal.D6 d => 54%N :: units_of_uint d
  | Decimal.D7 d => 55%N :: units_of_uint d
  | Decimal.D8 d => 56%N :: units_of_uint d
  | Decimal.D9 d => 57%N :: units_of_uint d
  end.

(** [n.toString()] for an integer [n] below [10^21] in absolute value (from
    there on JavaScript prints an exponent): the decimal digits, after a
    minus sign for a negative number. *)
Definition toString (n : Z) : list N :=
  match Z.to_int n with
  | Decimal.Pos d => units_of_uint d
  | Decimal.Neg d => 45%N :: units_of_uint d
  end.

End Str.

(** ** [utils.formatNumber], lines 78-80 and 1207-1209 *)

Definition comma : N := 44%N.

(** [\d] at the head of [rest]. *)
Definition starts_with_digit (rest : list N) : bool :=
  match rest with
  | c :: _ => Str.is_digit c
  | [] => false
  end.

(** The lookahead [(?=(\d{3})+(?!\d))] at the head of [rest]: one group of
    three digits, then either no digit or the same again. *)
Fixpoint digit_groups (rest : list N) : bool :=
  match rest with
  | d1 :: d2 :: d3 :: tl =>
      Str.is_digit d1 && Str.is_digit d2 && Str.is_digit d3
      && (negb (starts_with_digit tl) || digit_groups tl)
  | _ => false
  end.

(** [\B] between the unit [prev] and the unit [next] ([None] at either end
    of the string): not a word boundary, that is both are word units or
    neither is. *)
Definition non_boundary (prev next : option N) : bool :=
  Bool.eqb (match prev with Some c => Str.is_word c | None => false end)
           (match next with Some c => Str.is_word c | None => false end).

(** [s.replace(/\B(?=(\d{3})+(?!\d))/g, ",")]: a comma is inserted at every
    position where the (empty) pattern matches; [prev] is the unit before
    the current position. *)
Fixpoint insert_commas (prev : option N) (rest : list N) : list N :=
  match rest with
  | [] => []
  | c :: tl =>
      (if non_boundary prev (Some c) && digit_groups rest
       then [comma] else [])
      ++ c :: insert_commas (Some c) tl
  end.

Definition formatNumber_string (s : list N) : list N := insert_commas None s.

(** [formatNumber(num)] for an integer. *)
Definition formatNumber (num : Z) : list N :=
  formatNumber_string (Str.toString num).

(** A group of three digits. *)
Definition digit_group (g : list N) : Prop :=
  length g = 3%nat /\ Forall (fun c => Str.is_digit c = true) g.

Definition strip_commas (s : list N) : list N :=
  filter (fun c => negb (c =? comma)%N) s.

(** ** [AboutCounterAnimation.animateCounter], lines 139-158 *)






(** ** [blogUtils.calculateReadingTime], lines 1221-1226 *)

Definition calculateReadingTime (text : list N) : option Z :=
  let wordsPerMinute := 200 in
  let words := length (Str.split_whitespace (Str.trim text)) in
  quotient <- Js.div (inject_Z (Z.of_nat words)) wordsPerMinute ;;
  Some (Qceiling quotient).

(** The words of a text: its maximal runs of units that are not white
    space; [in_word] tells whether the previous unit belongs to a word. *)
Fixpoint count_words (in_word : bool) (s : list N) : nat :=
  match s with
  | [] => 0
  | c :: tl =>
      if Str.is_whitespace c then count_words false tl
      else (if in_word then 0 else 1) + count_words true tl
  end.

(** The runs of white space of a text that begin in it; [in_run] tells
    whether the previous unit is white space. *)
Fixpoint whitespace_runs (in_run : bool) (s : list N) : nat :=
  match s with
  | [] => 0
  | c :: tl =>
      if Str.is_whitespace c
      then (if in_run then 0 else 1) + whitespace_runs true tl
      else whitespace_runs false tl
  end.

(** The last unit of the text is not white space. *)
Fixpoint ends_in_word (s : list N) : bool :=
  match s with
  | [] => false
  | [c] => negb (Str.is_whitespace c)
  | _ :: tl => ends_in_word tl
  end.

(** ** Regular expressions

    The regular expressions of the source that consist of character
    classes, sequence and repetition, matched against a whole string
    ([/^...$/.test(s)]) by derivatives. *)

Inductive regex : Type :=
| Never
| Empty
| Class (p : N -> bool)
| Seq (r1 r2 : regex)
| Alt (r1 r2 : regex)
| Star (r : regex).

(** [r+] *)
Definition Plus (r : regex) : regex := Seq r (Star r).

Fixpoint nullable (r : regex) : bool :=
  match r with
  | Never => false
  | Empty => true
  | Class _ => false
  | Seq r1 r2 => nullable r1 && nullable r2
  | Alt r1 r2 => nullable r1 || nullable r2
  | Star _ => true
  end.

Fixpoint derive (c : N) (r : regex) : regex :=
  match r with
  | Never => Never
  | Empty => Never
  | Class p => if p c then Empty else Never
  | Seq r1 r2 =>
      if nullable r1
      then Alt (Seq (derive c r1) r2) (derive c r2)
      else Seq (derive c r1) r2
  | Alt r1 r2 => Alt (derive c r1) (derive c r2)
  | Star r => Seq (derive c r) (Star r)
  end.

Fixpoint matches (r : regex) (s : list N) : bool :=
  match s with
  | [] => nullable r
  | c :: tl => matches (derive c r) tl
  end.

(** The strings of a regular expression. *)
Fixpoint lang (r : regex) (s : list N) : Prop :=
  match r with
  | Never => False
  | Empty => s = []
  | Class p => exists c, s = [c] /\ p c = true
  | Seq r1 r2 => exists s1 s2, s = s1 ++ s2 /\ lang r1 s1 /\ lang r2 s2
  | Alt r1 r2 => lang r1 s \/ lang r2 s
  | Star r =>
      exists pieces,
        s = concat pieces /\ Forall (fun x => x <> [] /\ lang r x) pieces
  end.

(** ** [isValidEmail], lines 2180-2183, and [utils.validateEmail], lines
    1212-1215: [/^[^\s@]+@[^\s@]+\.[^\s@]+$/] *)

Definition at_sign : N := 64%N.
Definition full_stop : N := 46%N.

(** [[^\s@]] *)
Definition not_space_or_at (c : N) : bool :=
  negb (Str.is_whitespace c || (c =? at_sign)%N).

Definition emailRegex : regex :=
  Seq (Plus (Class not_space_or_at))
    (Seq (Class (N.eqb at_sign))
       (Seq (Plus (Class not_space_or_at))
          (Seq (Class (N.eqb full_stop))
             (Plus (Class not_space_or_at))))).

Definition isValidEmail (email : list N) : bool := matches emailRegex email.

(** [NewsletterForm.validateEmail], lines 2160-2172, on the value of the
    input: [false] when the field is flagged as an error. *)
Definition validateEmail (value : list N) : bool :=
  let email := Str.trim value in
  match email with
  | [] => true
  | _ :: _ => if negb (isValidEmail email) then false else true
  end.

(** The check at the head of [handleSubmit], lines 2105-2119: [true] when
    the submission goes on, [false] when it is refused with the error
    message. *)
Definition handleSubmit_accepts (value : list N) : bool :=
  let email := Str.trim value in
  if negb (isValidEmail email) then false else true.

(** A non-empty run of units that are neither white space nor [@]. *)
Definition email_part (s : list N) : Prop :=
  s <> [] /\ Forall (fun c => not_space_or_at c = true) s.

(** ** [blogUtils.updateReadingProgress], lines 1286-1302 *)

(** The [.blog-article] element as the function reads it. *)
Record Article : Type := mkArticle {
  offsetTop : Q;
  offsetHeight : Q
}.

(** The quotient by a height of zero is an infinity with the sign of the
    dividend, which [Math.max] and [Math.min] clamp to 0 or to 1; for a
    dividend of zero it is [NaN], which they keep: no value. *)
Definition updateReadingProgress
    (article : option Article) (innerHeight pageYOffset : Q) : option Q :=
  match article with
  | None => Some 0
  | Some a =>
      let articleTop := offsetTop a in
      let articleHeight := offsetHeight a in
      let windowHeight := innerHeight in
      let scrollTop := pageYOffset in
      let dividend := scrollTop - articleTop + windowHeight in
      if Js.eq articleHeight 0 then
        if Js.gt dividend 0 then Some 1
        else if Js.lt dividend 0 then Some 0
        else None
      else Some (Qmin (Qmax (dividend / articleHeight) 0) 1)
  end.

(** ** [utils.isInViewport], lines 36-49 and 1160-1173 *)

(** [element.getBoundingClientRect()]. *)
Record Rect : Type := mkRect {
  rect_top : Q;
  rect_bottom : Q;
  rect_left : Q;
  rect_right : Q
}.

(** [a || b] on two numbers. *)
Definition number_or (a b : Q) : Q := if Qeq_bool a 0 then b else a.

Definition isInViewport
    (rect : Rect) (innerHeight clientHeight innerWidth clientWidth : Q)
    (threshold : Q) : bool :=
  let windowHeight := number_or innerHeight clientHeight in
  let windowWidth := number_or innerWidth clientWidth in
  Js.le (rect_top rect) (windowHeight * (1 - threshold))
  && Js.ge (rect_bottom rect) (windowHeight * threshold)
  && Js.le (rect_left rect) (windowWidth * (1 - threshold))
  && Js.ge (rect_right rect) (windowWidth * threshold).

(** ** The easing of [utils.smoothScrollTo], lines 67-72 and 1191-1196 *)

(** The inner function [ease(t, b, c, d)]. *)
Definition ease (t b c d : Q) : option Q :=
  half <- Js.div d 2 ;;
  t <- Js.div t half ;;
  if Js.lt t 1 then
    h <- Js.div c 2 ;; Some (h * t * t + b)
  else
    let t := t - 1 in
    h <- Js.div (- c) 2 ;; Some (h * (t * (t - 2) - 1) + b).

(** ** [BlogFAQ.toggleFAQ], lines 2261-2295 *)

(** The [.faq-answer] of an item: its [style.maxHeight] and its
    [scrollHeight]. *)
Record Answer : Type := mkAnswer {
  maxHeight : list N;
  scrollHeight : Z
}.

(** A [.faq-item]: whether it has the class [active], and its answer when
    it has one. *)
Record FaqItem : Type := mkFaqItem {
  faq_active : bool;
  faq_answer : option Answer
}.

(** How a handler ends: normally, or by throwing (here the [TypeError] of
    reading [style] of [null]); either way with the page as it is then. *)
Inductive Outcome (A : Type) : Type :=
| Done (page : A)
| Threw (page : A).

Arguments Done {A} page.
Arguments Threw {A} page.

Definition page_after {A : Type} (o : Outcome A) : A :=
  match o with
  | Done page => page
  | Threw page => page
  end.

Definition set_maxHeight (value : list N) (a : Answer) : Answer :=
  mkAnswer value (scrollHeight a).

(** What the [forEach] does to an item other than the clicked one. *)
Definition close_other (other : FaqItem) : FaqItem :=
  mkFaqItem false
    (option_map (set_maxHeight (Str.of_string "0")) (faq_answer other)).

(** [items] with [current] applied to the item at [index] and [other] to
    all the others. *)
Fixpoint update_items
    (index : nat) (current other : FaqItem -> FaqItem) (items : list FaqItem)
  : list FaqItem :=
  match items with
  | [] => []
  | item :: tl =>
      match index with
      | O => current item :: map other tl
      | S k => other item :: update_items k current other tl
      end
  end.

(** [toggleFAQ(item)] for the item at [index] of [this.faqItems]. *)
Definition toggleFAQ (index : nat) (items : list FaqItem)
  : Outcome (list FaqItem) :=
  match nth_error items index with
  | None => Done items
  | Some item =>
      let isActive := faq_active item in
      let answer := faq_answer item in
      if isActive then
        match answer with
        | None =>
            Threw (update_items index
                     (fun it => mkFaqItem false (faq_answer it))
                     close_other items)
        | Some _ =>
            Done (update_items index
                    (fun it =>
                       mkFaqItem false
                         (option_map (set_maxHeight (Str.of_string "0"))
                            (faq_answer it)))
                    close_other items)
        end
      else
        match answer with
        | None =>
            Threw (update_items index
                     (fun it => mkFaqItem true (faq_answer it))
                     close_other items)
        | Some _ =>
            Done (update_items index
                    (fun it =>
                       mkFaqItem true
                         (option_map
                            (fun a =>
                               set_maxHeight
                                 (Str.toString (scrollHeight a)
                                  ++ Str.of_string "px") a)
                            (faq_answer it)))
                    close_other items)
        end
  end.

(** The number of items with the class [active]. *)
Definition open_items (items : list FaqItem) : nat :=
  length (filter faq_active items).

(** ** [Navigation.toggleMobileMenu] and [closeMobileMenu], lines
    1387-1400 *)

(** The class [active] of the menu and of the toggle button, and the
    [aria-expanded] attribute of the button. *)
Record NavState : Type := mkNav {
  menu_active : bool;
  toggle_active : bool;
  aria_expanded : string
}.

(** A boolean as [setAttribute] stores it. *)
Definition string_of_bool (b : bool) : string :=
  if b then "true" else "false".

Definition toggleMobileMenu (nav : NavState) : NavState :=
  let menu := negb (menu_active nav) in
  mkNav menu (negb (toggle_active nav)) (string_of_bool menu).

Definition closeMobileMenu (nav : NavState) : NavState :=
  mkNav false false "false".

(** The two ways the handlers of [bindEvents] change the menu: the click on
    the toggle button; and the closing by a navigation link, by a resize to
    1024 pixels or more, or by a click outside the header while the menu is
    open. *)
Inductive NavEvent : Type :=
| ClickToggle
| CloseMenu.

Definition nav_step (nav : NavState) (e : NavEvent) : NavState :=
  match e with
  | ClickToggle => toggleMobileMenu nav
  | CloseMenu => closeMobileMenu nav
  end.

(** The clicks on the toggle button since the last closing. *)
Fixpoint toggles_since_close (events : list NavEvent) : nat * bool :=
  match events with
  | [] => (O, false)
  | e :: later =>
      let '(n, closed) := toggles_since_close later in
      if closed then (n, true)
      else match e with
           | ClickToggle => (S n, false)
           | CloseMenu => (n, true)
           end
  end.

(** ** [TableOfContents.updateActiveLink], lines 1471-1493 *)

Record Heading : Type := mkHeading {
  heading_id : string;
  heading_top : Q
}.

Record TocLink : Type := mkTocLink {
  link_href : string;
  link_active : bool
}.

(** The component: its links, the headings of the article in document
    order, and the heading it holds as current (by its position in the
    list). *)
Record Toc : Type := mkToc {
  tocLinks : list TocLink;
  toc_headings : list Heading;
  currentActive : option nat
}.

(** The [forEach] over the headings: every heading at or above the scroll
    position replaces [activeHeading]; [index] is the position of the head
    of [hs]. *)
Fixpoint last_reached
    (scrollPosition : Q) (index : nat) (hs : list Heading)
    (activeHeading : option (nat * Heading)) : option (nat * Heading) :=
  match hs with
  | [] => activeHeading
  | heading :: tl =>
      last_reached scrollPosition (S index) tl
        (if Js.le (heading_top heading) scrollPosition
         then Some (index, heading) else activeHeading)
  end.

Definition same_heading (a : option nat) (b : nat) : bool :=
  match a with
  | Some i => Nat.eqb i b
  | None => false
  end.

Definition updateActiveLink (toc : Toc) (pageYOffset : Q) : Toc :=
  let scrollPosition := pageYOffset + 150 in
  match last_reached scrollPosition 0 (toc_headings toc) None with
  | None => toc
  | Some (index, activeHeading) =>
      if same_heading (currentActive toc) index then toc
      else
        mkToc
          (map (fun link =>
                  mkTocLink (link_href link)
                    (String.eqb (link_href link)
                       ("#" ++ heading_id activeHeading)))
             (tocLinks toc))
          (toc_headings toc)
          (Some index)
  end.

(** ** [AccessibilityEnhancer.setupColorContrastToggle], lines 2535-2585 *)

(** Whether the body has the class [high-contrast], and the item
    [highContrast] of the local storage when there is one. *)
Record ContrastState : Type := mkContrast {
  high_contrast : bool;
  saved_contrast : option string
}.

(** A click on the toggle: the class is flipped and its new state saved. *)
Definition clickContrastToggle (st : ContrastState) : ContrastState :=
  let isHighContrast := negb (high_contrast st) in
  mkContrast isHighContrast (Some (string_of_bool isHighContrast)).

(** The set-up on a freshly loaded page (whose body does not have the
    class): the saved preference is applied. *)
Definition setupColorContrastToggle (storage : option string)
  : ContrastState :=
  mkContrast
    (match storage with
     | Some value => String.eqb value "true"
     | None => false
     end)
    storage.

(** * Facts about the arithmetic *)

Section JsFacts.

Lemma lt_true (a b : Q) : Js.lt a b = true <-> a < b.
Proof.
  unfold Js.lt. rewrite negb_true_iff, <- not_true_iff_false, Qle_bool_iff.
  split; intro H; [apply Qnot_le_lt | apply Qlt_not_le]; exact H.
Qed.

Lemma le_true (a b : Q) : Js.le a b = true <-> a <= b.
Proof. unfold Js.le. apply Qle_bool_iff. Qed.

Lemma gt_true (a b : Q) : Js.gt a b = true <-> b < a.
Proof. unfold Js.gt. apply lt_true. Qed.

Lemma ge_true (a b : Q) : Js.ge a b = true <-> b <= a.
Proof. unfold Js.ge. apply le_true. Qed.

Lemma lt_false (a b : Q) : Js.lt a b = false <-> b <= a.
Proof.
  rewrite <- not_true_iff_false, lt_true.
  split; intro H; [apply Qnot_lt_le | apply Qle_not_lt]; exact H.
Qed.

Lemma le_false (a b : Q) : Js.le a b = false <-> b < a.
Proof.
  rewrite <- not_true_iff_false, le_true.
  split; intro H; [apply Qnot_le_lt | apply Qlt_not_le]; exact H.
Qed.

Lemma gt_false (a b : Q) : Js.gt a b = false <-> a <= b.
Proof. unfold Js.gt. apply lt_false. Qed.

Lemma ge_false (a b : Q) : Js.ge a b = false <-> a < b.
Proof. unfold Js.ge. apply le_false. Qed.

Lemma eq_true (a b : Q) : Js.eq a b = true <-> a == b.
Proof. unfold Js.eq. apply Qeq_bool_iff. Qed.

Lemma eq_false (a b : Q) : Js.eq a b = false <-> ~ a == b.
Proof. rewrite <- not_true_iff_false, eq_true. tauto. Qed.

Lemma Qeq_bool_false (a b : Q) : ~ a == b -> Qeq_bool a b = false.
Proof. intro H. apply (proj2 (eq_false a b) H). Qed.

(** A division by a non-zero number has its usual value. *)
Lemma div_defined (a b : Q) : ~ b == 0 -> Js.div a b = Some (a / b).
Proof. intro H. unfold Js.div. rewrite (Qeq_bool_false _ _ H). reflexivity. Qed.

Lemma div_undefined (a b : Q) : b == 0 -> Js.div a b = None.
Proof.
  intro H. unfold Js.div.
  rewrite (proj2 (Qeq_bool_iff b 0) H). reflexivity.
Qed.

(** A power with a non-negative exponent always has a value. *)
Lemma pow_defined (x : Q) (n : Z) : (0 <= n)%Z -> Js.pow x n = Some (x ^ n).
Proof.
  intro H. unfold Js.pow.
  replace (n <? 0)%Z with false by (symmetry; apply Z.ltb_ge; exact H).
  rewrite andb_false_r. reflexivity.
Qed.

(** The defaulting [|| d] keeps every number but zero. *)
Lemma or_default_nonzero (q d : Q) :
  ~ q == 0 -> Js.or_default (Some q) d = q.
Proof. intro H. simpl. rewrite (Qeq_bool_false _ _ H). reflexivity. Qed.

Lemma or_default_zero (q d : Q) : q == 0 -> Js.or_default (Some q) d = d.
Proof. intro H. simpl. rewrite (proj2 (Qeq_bool_iff q 0) H). reflexivity. Qed.

End JsFacts.

(** The labels tell the grades apart. *)
Lemma grade_label_injective (g1 g2 : Grade) :
  grade_label g1 = grade_label g2 -> g1 = g2.
Proof. destruct g1, g2; simpl; intro H; try reflexivity; discriminate H. Qed.

(** * Invalid input *)

(** For a supplied number the effective value is that number. *)
Lemma effective_supplied (q : Q) : effective (Some q) == q.
Proof.
  unfold effective. simpl. destruct (Qeq_bool q 0) eqn:E; [|reflexivity].
  apply Qeq_bool_iff in E. symmetry. exact E.
Qed.

(** The guard of [calculateROI], line 1558, as a proposition. *)
Lemma invalid_guard (price_field rent_field : option Q) :
  (Js.le (effective price_field) 0 || Js.le (effective rent_field) 0)%bool
  = true
  <-> effective price_field <= 0 \/ effective rent_field <= 0.
Proof. rewrite orb_true_iff, !le_true. reflexivity. Qed.

(** When the guard holds the error is shown at once. *)
Lemma calculateROI_error_outcome
    (price_field down_field rent_field : option Q) :
  (Js.le (effective price_field) 0 || Js.le (effective rent_field) 0)%bool
  = true ->
  calculateROI price_field down_field rent_field
  = Some (ShowError invalid_input_message).
Proof.
  intro H. unfold calculateROI.
  fold (effective price_field) (effective rent_field).
  rewrite H. reflexivity.
Qed.

(** C1: whenever the property price or the monthly rent is not positive,
    [calculateROI] shows the invalid-input error and nothing else: its whole
    outcome is the error message, which carries no result field, and no
    arithmetic has been evaluated to get there (the outcome is defined
    whatever the down-payment field holds). *)
Theorem calculateROI_rejects_invalid_input
    (price_field down_field rent_field : option Q) :
  effective price_field <= 0 \/ effective rent_field <= 0 ->
  calculateROI price_field down_field rent_field
  = Some (ShowError invalid_input_message).
Proof.
  intros [H|H]; unfold calculateROI;
    fold (effective price_field) (effective rent_field).
  - rewrite (proj2 (le_true _ _) H). reflexivity.
  - rewrite (proj2 (le_true _ _) H), orb_true_r. reflexivity.
Qed.

Lemma calculateROI_rejects_invalid_input_witness :
  calculateROI (Some (-5)) (Some 20) (Some 2000)
  = Some (ShowError invalid_input_message).
Proof.
  apply (calculateROI_rejects_invalid_input (Some (-5)) (Some 20) (Some 2000)).
  left. vm_compute. discriminate.
Defined.

(** * The mortgage payment *)

Section Mortgage.

Variables (principal annualRate : Q) (years : Z).
Hypothesis years_pos : (0 < years)%Z.

(** The zero-rate branch. *)
Lemma mortgage_zero_rate :
  annualRate / 12 == 0 ->
  calculateMortgagePayment principal annualRate years
  = Some (principal / inject_Z (years * 12)).
Proof.
  intro H. unfold calculateMortgagePayment.
  rewrite div_defined by discriminate. unfold Js.bind.
  rewrite (proj2 (eq_true _ _) H).
  apply div_defined.
  intro E. apply (Qeq_bool_iff _ _) in E. revert E.
  unfold Qeq_bool, inject_Z. simpl. rewrite Z.mul_1_r.
  intro E. apply Z.eqb_eq in E. lia.
Qed.

(** The amortization branch, as long as its divisor is not zero. *)
Lemma mortgage_amortized :
  ~ annualRate / 12 == 0 ->
  ~ (1 + annualRate / 12) ^ (years * 12) - 1 == 0 ->
  calculateMortgagePayment principal annualRate years
  = Some (principal
          * (annualRate / 12 * (1 + annualRate / 12) ^ (years * 12))
          / ((1 + annualRate / 12) ^ (years * 12) - 1)).
Proof.
  intros H D. unfold calculateMortgagePayment.
  rewrite div_defined by discriminate. unfold Js.bind.
  rewrite (proj2 (eq_false _ _) H).
  rewrite pow_defined by lia.
  apply div_defined. exact D.
Qed.

End Mortgage.

(** A positive number other than one has no power equal to one. *)
Lemma Qpower_lt_1 (x : Q) (n : Z) : 0 < x -> x < 1 -> (0 < n)%Z -> x ^ n < 1.
Proof.
  intros Hx H1 Hn.
  assert (Hi : 1 < / x).
  { apply Qlt_shift_inv_l; [exact Hx|]. rewrite Qmult_1_l. exact H1. }
  pose proof (Qpower_1_lt (/ x) n Hi Hn) as Hp.
  rewrite Qinv_power in Hp.
  assert (Hpos : 0 < x ^ n) by (apply Qpower_0_lt; exact Hx).
  apply (Qmult_lt_r _ _ (/ x ^ n)); [apply Qinv_lt_0_compat; exact Hpos|].
  rewrite Qmult_inv_r by (intro E; rewrite E in Hpos; discriminate Hpos).
  rewrite Qmult_1_l. exact Hp.
Qed.

Lemma Qpower_ne_1 (x : Q) (n : Z) :
  0 < x -> ~ x == 1 -> (0 < n)%Z -> ~ x ^ n - 1 == 0.
Proof.
  intros Hx H1 Hn E.
  assert (E' : x ^ n == 1) by lra.
  destruct (Q_dec x 1) as [[L|G]|Eq]; [| |contradiction].
  - pose proof (Qpower_lt_1 x n Hx L Hn). lra.
  - pose proof (Qpower_1_lt x n G Hn). lra.
Qed.

(** * The grade *)

(** Turns the boolean tests of the source into the propositions they
    decide. *)
Ltac js_reflect :=
  repeat match goal with
  | H : (_ && _)%bool = true |- _ => apply andb_true_iff in H; destruct H
  | H : (_ && _)%bool = false |- _ => apply andb_false_iff in H
  | H : (_ || _)%bool = true |- _ => apply orb_true_iff in H
  | H : (_ || _)%bool = false |- _ => apply orb_false_iff in H; destruct H
  | H : Js.lt _ _ = true |- _ => apply lt_true in H
  | H : Js.lt _ _ = false |- _ => apply lt_false in H
  | H : Js.le _ _ = true |- _ => apply le_true in H
  | H : Js.le _ _ = false |- _ => apply le_false in H
  | H : Js.gt _ _ = true |- _ => apply gt_true in H
  | H : Js.gt _ _ = false |- _ => apply gt_false in H
  | H : Js.ge _ _ = true |- _ => apply ge_true in H
  | H : Js.ge _ _ = false |- _ => apply ge_false in H
  end.

Lemma getInvestmentGrade_row (coc cap cf : Q) :
  spec_gradeInvestment coc cap cf (getInvestmentGrade coc cap cf).
Proof.
  unfold getInvestmentGrade.
  destruct (Js.lt cf 0) eqn:E0; js_reflect; [exact E0|].
  assert (N0 : ~ cf < 0) by (intro; lra).
  destruct (Js.ge coc 12 && Js.ge cap 8)%bool eqn:E1; js_reflect.
  { simpl. tauto. }
  assert (N1 : ~ (12 <= coc /\ 8 <= cap)) by (intros [? ?]; destruct E1; js_reflect; lra).
  destruct (Js.ge coc 8 && Js.ge cap 6)%bool eqn:E2; js_reflect.
  { simpl. tauto. }
  assert (N2 : ~ (8 <= coc /\ 6 <= cap)) by (intros [? ?]; destruct E2; js_reflect; lra).
  destruct (Js.ge coc 5 && Js.ge cap 4)%bool eqn:E3; js_reflect.
  { simpl. tauto. }
  assert (N3 : ~ (5 <= coc /\ 4 <= cap)) by (intros [? ?]; destruct E3; js_reflect; lra).
  simpl. tauto.
Qed.

Lemma spec_gradeInvestment_functional (coc cap cf : Q) (g1 g2 : Grade) :
  spec_gradeInvestment coc cap cf g1 ->
  spec_gradeInvestment coc cap cf g2 -> g1 = g2.
Proof.
  destruct g1, g2; simpl; intros H1 H2; try reflexivity; exfalso; tauto.
Qed.

(** C4: [getInvestmentGrade] is the ordered decision chain of the
    specification.  The grade it returns is the one of the first row whose
    condition holds (negative cash flow; else [coc >= 12] and
    [capRate >= 8]; else [coc >= 8] and [capRate >= 6]; else [coc >= 5] and
    [capRate >= 4]; else the last row), no other grade fits, and the
    thresholds are inclusive: [coc = 12], [capRate = 8], [cashFlow = 0] is
    graded [Excellent]. *)
Theorem getInvestmentGrade_decision_chain (coc cap cf : Q) :
  spec_gradeInvestment coc cap cf (getInvestmentGrade coc cap cf)
  /\ (forall g : Grade,
        spec_gradeInvestment coc cap cf g <-> getInvestmentGrade coc cap cf = g)
  /\ getInvestmentGrade 12 8 0 = Excellent.
Proof.
  split; [apply getInvestmentGrade_row|]. split; [|reflexivity].
  intro g. split.
  - intro H. apply (spec_gradeInvestment_functional coc cap cf); [|exact H].
    apply getInvestmentGrade_row.
  - intros <-. apply getInvestmentGrade_row.
Qed.

Lemma getInvestmentGrade_decision_chain_witness :
  getInvestmentGrade 9 (13 # 2) 100 = Good
  /\ getInvestmentGrade 20 20 (-1) = PoorNegativeCashFlow.
Proof.
  split.
  - apply (proj1 (proj2 (getInvestmentGrade_decision_chain 9 (13 # 2) 100)) Good).
    simpl. repeat split; try lra; intros [H1 H2]; lra.
  - apply (proj1 (proj2 (getInvestmentGrade_decision_chain 20 20 (-1)))
             PoorNegativeCashFlow).
    simpl. lra.
Defined.

(** * The result card of a valid input *)

Lemma monthly_rate_065 : ~ 0.065 / 12 == 0.
Proof. intro E. vm_compute in E. discriminate E. Qed.

Lemma amortization_divisor_065 : ~ (1 + 0.065 / 12) ^ (30 * 12) - 1 == 0.
Proof.
  apply Qpower_ne_1.
  - reflexivity.
  - intro E. vm_compute in E. discriminate E.
  - reflexivity.
Qed.

Lemma mortgage_fixed_terms (loanAmount : Q) :
  calculateMortgagePayment loanAmount 0.065 30 = Some (amortized30 loanAmount).
Proof.
  unfold amortized30. apply mortgage_amortized.
  - reflexivity.
  - exact monthly_rate_065.
  - exact amortization_divisor_065.
Qed.

(** The outcome for a valid input: every division is defined and the card
    holds the values of [result_card]. *)
Lemma calculateROI_valid (price_field down_field rent_field : option Q) :
  0 < effective price_field -> 0 < effective rent_field ->
  calculateROI price_field down_field rent_field
  = Some (ShowSuccess
            (result_card (effective price_field)
               (Js.or_default down_field 20) (effective rent_field))).
Proof.
  intros Hp Hr. unfold calculateROI.
  fold (effective price_field). fold (effective rent_field).
  set (p := effective price_field) in *.
  set (r := effective rent_field) in *.
  set (d := Js.or_default down_field 20).
  rewrite (proj2 (le_false p 0) Hp), (proj2 (le_false r 0) Hr).
  cbv [orb].
  rewrite (div_defined d 100) by discriminate. cbv [Js.bind].
  rewrite mortgage_fixed_terms.
  rewrite (div_defined (p * 0.01) 12) by discriminate.
  assert (Pnz : ~ p == 0) by (intro E; rewrite E in Hp; discriminate Hp).
  rewrite (div_defined _ p Pnz), (div_defined r p Pnz).
  unfold result_card.
  destruct (Js.gt (p * (d / 100)) 0) eqn:G.
  - apply gt_true in G.
    rewrite div_defined
      by (intro E; rewrite E in G; discriminate G).
    reflexivity.
  - reflexivity.
Qed.

(** Conversely, a result card is only ever shown for a valid input. *)
Lemma calculateROI_success_valid
    (price_field down_field rent_field : option Q) (res : CalculatorResult) :
  calculateROI price_field down_field rent_field = Some (ShowSuccess res) ->
  0 < effective price_field /\ 0 < effective rent_field.
Proof.
  intro H.
  destruct (Qlt_le_dec 0 (effective price_field)) as [Hp|Hp];
    [destruct (Qlt_le_dec 0 (effective rent_field)) as [Hr|Hr]|].
  - split; assumption.
  - rewrite calculateROI_error_outcome in H
      by (apply invalid_guard; right; exact Hr).
    discriminate H.
  - rewrite calculateROI_error_outcome in H
      by (apply invalid_guard; left; exact Hp).
    discriminate H.
Qed.

Lemma effective_nonzero (q : Q) : 0 < q -> effective (Some q) = q.
Proof.
  intro H. apply or_default_nonzero.
  intro E. rewrite E in H. discriminate H.
Qed.

Lemma result_card_formulas (p d r : Q) :
  0 < p -> section3_formulas p d r (result_card p d r).
Proof.
  intro Hp. unfold section3_formulas, result_card.
  cbn [downPayment loanAmount monthlyMortgage monthlyExpenses monthlyCashFlow
       annualCashFlow cashOnCashReturn capRate onePercentRule].
  assert (Pnz : ~ p == 0) by (intro E; rewrite E in Hp; discriminate Hp).
  repeat split; try reflexivity.
  - field.
  - intro G. rewrite (proj2 (gt_true _ _) G). reflexivity.
  - intro G.
    rewrite (proj2 (gt_false _ _)); [reflexivity|].
    apply Qnot_lt_le. exact G.
Qed.

(** The guard of the live recalculation, [hasValidInputs], holds exactly
    when [calculateROI] shows a result card. *)
Lemma hasValidInputs_iff (price_field down_field rent_field : option Q) :
  hasValidInputs price_field rent_field = true
  <-> exists res,
        calculateROI price_field down_field rent_field
        = Some (ShowSuccess res).
Proof.
  unfold hasValidInputs. fold (effective price_field) (effective rent_field).
  rewrite andb_true_iff, !gt_true. split.
  - intros [Hp Hr]. eexists. apply calculateROI_valid; assumption.
  - intros [res H]. apply (calculateROI_success_valid _ _ _ _ H).
Qed.

(** * Totality *)

Lemma calculateROI_defined (price_field down_field rent_field : option Q) :
  exists shown, calculateROI price_field down_field rent_field = Some shown.
Proof.
  destruct (Qlt_le_dec 0 (effective price_field)) as [Hp|Hp];
    [destruct (Qlt_le_dec 0 (effective rent_field)) as [Hr|Hr]|].
  - eexists. apply calculateROI_valid; assumption.
  - eexists. apply calculateROI_error_outcome, invalid_guard.
    right. exact Hr.
  - eexists. apply calculateROI_error_outcome, invalid_guard.
    left. exact Hp.
Qed.



(** * The scenario of the specification *)

Lemma amortized30_compat (a b : Q) : a == b -> amortized30 a == amortized30 b.
Proof. intro E. unfold amortized30. rewrite E. reflexivity. Qed.

(** The payment of a loan of 240000, to a ten-thousandth. *)
Lemma amortized30_240000 :
  1516.9632 <= amortized30 240000 /\ amortized30 240000 <= 1516.9633.
Proof. split; apply Qle_bool_iff; vm_compute; reflexivity. Qed.

Lemma approx_bounds (value printed tolerance : Q) :
  approx value printed tolerance
  <-> printed - tolerance <= value /\ value <= printed + tolerance.
Proof.
  unfold approx. rewrite Qabs_Qle_condition.
  split; intros [A B]; split; lra.
Qed.

Lemma scenario_card :
  calculateROI (Some 300000) (Some 20) (Some 2000)
  = Some (ShowSuccess (result_card 300000 20 2000)).
Proof. apply (calculateROI_valid (Some 300000) (Some 20) (Some 2000)); reflexivity. Qed.

Lemma result_card_mortgage (p d r : Q) :
  monthlyMortgage (result_card p d r) = amortized30 (p - p * (d / 100)).
Proof. reflexivity. Qed.

Lemma result_card_grade (p d r : Q) :
  grade (result_card p d r)
  = getInvestmentGrade (cashOnCashReturn (result_card p d r))
      (capRate (result_card p d r)) (monthlyCashFlow (result_card p d r)).
Proof. reflexivity. Qed.

Lemma grade_from_row (coc cap cf : Q) (g : Grade) :
  spec_gradeInvestment coc cap cf g -> getInvestmentGrade coc cap cf = g.
Proof.
  intro H. apply (spec_gradeInvestment_functional coc cap cf); [|exact H].
  apply getInvestmentGrade_row.
Qed.

(** Every figure of the scenario follows from the formulas of section 3
    and the payment [m] of the loan of 240000. *)
Lemma scenario_figures (res : CalculatorResult) (m : Q) :
  section3_formulas 300000 20 2000 res ->
  monthlyMortgage res == m ->
  grade res
  = getInvestmentGrade (cashOnCashReturn res) (capRate res)
      (monthlyCashFlow res) ->
  1516.9632 <= m -> m <= 1516.9633 ->
  scenario_as_computed res
  /\ 0.47 < Qabs (monthlyMortgage res - 1517.44).
Proof.
  intros (F1 & F2 & F3 & F4 & F5 & F6 & _ & F8 & F9) M G L U.
  assert (D : downPayment res == 60000)
    by (apply (Qeq_trans _ _ _ F1); reflexivity).
  assert (X : monthlyExpenses res == 250)
    by (apply (Qeq_trans _ _ _ F3); reflexivity).
  assert (C : monthlyCashFlow res == 1750 - m) by lra.
  assert (A : annualCashFlow res == 21000 - 12 * m) by lra.
  assert (R : cashOnCashReturn res == 35 - m * (1 # 50)).
  { apply (Qeq_trans _ _ _ (F6 ltac:(lra))).
    apply (Qeq_trans _ ((21000 - 12 * m) / 60000 * 100)).
    - apply Qmult_comp; [apply Qdiv_comp; assumption | reflexivity].
    - field. }
  assert (K : capRate res == 7)
    by (apply (Qeq_trans _ _ _ F8); reflexivity).
  assert (O : onePercentRule res == 2 # 3)
    by (apply (Qeq_trans _ _ _ F9); reflexivity).
  split.
  - unfold scenario_as_computed. rewrite !approx_bounds.
    repeat (split; [lra|]).
    rewrite G. apply grade_from_row. simpl.
    repeat split; try (intro; lra); intros [? ?]; lra.
  - assert (E : Qabs (monthlyMortgage res - 1517.44)
               == - (monthlyMortgage res - 1517.44))
      by (apply Qabs_neg; lra).
    apply (Qlt_le_trans _ (- (monthlyMortgage res - 1517.44))); [lra|].
    apply Qle_lteq. right. symmetry. exact E.
Qed.

Lemma scenario_result :
  scenario_as_computed (result_card 300000 20 2000)
  /\ 0.47 < Qabs (monthlyMortgage (result_card 300000 20 2000) - 1517.44).
Proof.
  destruct amortized30_240000 as [L U].
  apply (scenario_figures _ (amortized30 240000)).
  - apply result_card_formulas. reflexivity.
  - rewrite result_card_mortgage. apply amortized30_compat. reflexivity.
  - apply result_card_grade.
  - exact L.
  - exact U.
Qed.

(** C5, the claim as stated fails: for a price of 300000, 20 percent down
    and a rent of 2000 the monthly mortgage is not 1517.44 to the cent; it
    is more than 0.47 away from it. *)
Lemma scenario_as_specified_fails :
  ~ (exists res,
       calculateROI (Some 300000) (Some 20) (Some 2000) = Some (ShowSuccess res)
       /\ scenario_as_specified res).
Proof.
  intros [res [H S]]. rewrite scenario_card in H. injection H as <-.
  destruct S as (_ & _ & S & _).
  destruct scenario_result as [_ F].
  unfold approx in S.
  apply (Qlt_irrefl 0.47).
  apply (Qlt_le_trans _ _ _ F). apply (Qle_trans _ _ _ S). discriminate.
Qed.

(** C5, amended: for a price of 300000, 20 percent down and a rent of 2000,
    [calculateROI] shows a down payment of 60000, a loan of 240000, a monthly
    mortgage of 1516.96, monthly expenses of 250, a monthly cash flow of
    233.04, an annual cash flow of 2796.44, a cash-on-cash return of 4.66, a
    cap rate of 7.0, a one-percent rule of 0.667 and the grade
    [BelowAverage]; the approximate figures, the cap rate among them, are
    exact to half a unit of their last decimal.  In binary64 the three
    figures given as exact are exact, whatever [Math.pow] returns, and the
    cap rate is 7.000000000000001. *)
Theorem scenario_300000_20_2000 :
  (exists res,
     calculateROI (Some 300000) (Some 20) (Some 2000) = Some (ShowSuccess res)
     /\ scenario_as_computed res)
  /\ (forall pow_approx,
      exists res,
        Binary64.calculateROI pow_approx 300000 20 2000
        = Binary64.ShowSuccess res
        /\ Binary64.scenario_figures_without_pow res).
Proof.
  split.
  - exists (result_card 300000 20 2000). split.
    + exact scenario_card.
    + exact (proj1 scenario_result).
  - intro pow_approx. eexists. split; [reflexivity|].
    repeat split; reflexivity.
Qed.

(** * More on the calculator *)

(** ** The handlers *)

(** [showResult] leaves the three inputs alone. *)

Lemma showResult_inputs (content : Shown) (type : string) (doc : Document) :
  property_price (showResult content type doc) = property_price doc
  /\ down_payment (showResult content type doc) = down_payment doc
  /\ monthly_rent (showResult content type doc) = monthly_rent doc.
Proof.
  unfold showResult. destruct (calc_result doc); repeat split; reflexivity.
Qed.

Lemma calculateROI_on_valid (doc : Document) :
  hasValidInputs (property_price doc) (monthly_rent doc) = true ->
  calculateROI_on doc
  = Some (showResult
            (ShowSuccess
               (result_card (effective (property_price doc))
                  (Js.or_default (down_payment doc) 20)
                  (effective (monthly_rent doc))))
            "success" doc).
Proof.
  intro H. unfold hasValidInputs in H.
  fold (effective (property_price doc)) (effective (monthly_rent doc)) in H.
  apply andb_true_iff in H. destruct H as [Hp Hr].
  apply gt_true in Hp. apply gt_true in Hr.
  unfold calculateROI_on.
  rewrite (calculateROI_valid _ (down_payment doc) _ Hp Hr).
  reflexivity.
Qed.

(** X1: the live recalculation never puts the error message on the page.
    Whatever the inputs hold it has an outcome; if afterwards the result
    element shows an error, the element is exactly as it was before (the
    handler did not touch the page); otherwise what it wrote is a result
    card with the class of a success. *)
Theorem onInputChange_never_shows_error (doc : Document) :
  exists after,
    onInputChange doc = Some after
    /\ (hasValidInputs (property_price doc) (monthly_rent doc) = false ->
        after = doc)
    /\ (forall element message,
          calc_result after = Some element ->
          innerHTML element = Some (ShowError message) ->
          after = doc)
    /\ (hasValidInputs (property_price doc) (monthly_rent doc) = true ->
        forall element,
          calc_result after = Some element ->
          className element = "calc-result show success"%string
          /\ exists res, innerHTML element = Some (ShowSuccess res)).
Proof.
  unfold onInputChange.
  destruct (hasValidInputs (property_price doc) (monthly_rent doc)) eqn:V.
  - rewrite (calculateROI_on_valid doc V). eexists. split; [reflexivity|].
    split; [discriminate|].
    unfold showResult. destruct (calc_result doc) as [e|] eqn:R.
    + split.
      * intros element message H1 H2. cbn [calc_result] in H1.
        injection H1 as <-. discriminate H2.
      * intros _ element H1. cbn [calc_result] in H1. injection H1 as <-.
        split; [reflexivity|]. eexists. reflexivity.
    + split; [reflexivity|]. intros _ element H1.
      rewrite R in H1. discriminate H1.
  - exists doc. split; [reflexivity|]. split; [reflexivity|].
    split; [reflexivity|discriminate].
Qed.

Lemma onInputChange_never_shows_error_witness :
  exists after,
    onInputChange
      (mkDocument (Some 300000) None (Some 0)
         (Some (mkElement None "calc-result")) false) = Some after
    /\ after
       = mkDocument (Some 300000) None (Some 0)
           (Some (mkElement None "calc-result")) false.
Proof.
  destruct (onInputChange_never_shows_error
              (mkDocument (Some 300000) None (Some 0)
                 (Some (mkElement None "calc-result")) false))
    as (after & H & Same & _).
  exists after. split; [exact H|]. apply Same. reflexivity.
Defined.

(** X2: a click never modifies the three inputs; on a page without a result
    element it changes nothing at all; on a page with one it always has an
    outcome, writes it with the class that goes with it ("error" for the
    message, "success" for the card) and leaves the style sheet in place. *)
Theorem calculateROI_on_frame (doc : Document) :
  exists after shown,
    calculateROI_on doc = Some after
    /\ calculateROI (property_price doc) (down_payment doc) (monthly_rent doc)
       = Some shown
    /\ property_price after = property_price doc
    /\ down_payment after = down_payment doc
    /\ monthly_rent after = monthly_rent doc
    /\ (calc_result doc = None -> after = doc)
    /\ (calc_result doc <> None ->
        calc_result after
        = Some (mkElement (Some shown)
                  ("calc-result show " ++ shown_type shown))
        /\ calc_styles after = true).
Proof.
  destruct (calculateROI_defined (property_price doc) (down_payment doc)
              (monthly_rent doc)) as [s Hs].
  exists (showResult s (shown_type s) doc), s.
  unfold calculateROI_on. rewrite Hs. cbv [Js.bind].
  destruct (showResult_inputs s (shown_type s) doc) as (I1 & I2 & I3).
  repeat (split; [assumption || reflexivity|]).
  unfold showResult. destruct (calc_result doc) as [e|].
  - split; [discriminate|]. intros _. split; reflexivity.
  - split; [reflexivity|]. intro C. contradiction.
Qed.

Lemma calculateROI_on_frame_witness :
  exists after,
    calculateROI_on (mkDocument (Some 300000) None (Some 2000) None false)
    = Some after
    /\ after = mkDocument (Some 300000) None (Some 2000) None false.
Proof.
  destruct (calculateROI_on_frame
              (mkDocument (Some 300000) None (Some 2000) None false))
    as (after & shown & H & _ & _ & _ & _ & Same & _).
  exists after. split; [exact H|]. apply Same. reflexivity.
Defined.

(** ** The grade as a function of the figures *)

Lemma grade_rank_row (coc cap cf : Q) :
  let g := getInvestmentGrade coc cap cf in
  (grade_rank g = 0%nat <-> cf < 0)
  /\ ((4 <= grade_rank g)%nat <-> 0 <= cf /\ 12 <= coc /\ 8 <= cap)
  /\ ((3 <= grade_rank g)%nat <-> 0 <= cf /\ 8 <= coc /\ 6 <= cap)
  /\ ((2 <= grade_rank g)%nat <-> 0 <= cf /\ 5 <= coc /\ 4 <= cap).
Proof.
  intro g. pose proof (getInvestmentGrade_row coc cap cf) as R. fold g in R.
  destruct g; simpl in R |- *;
    repeat split; intros; try lia; try lra;
    try (exfalso; lra);
    repeat match goal with
    | H : _ /\ _ |- _ => destruct H
    | H : ~ (_ /\ _) |- _ => exfalso; apply H; split; lra
    | H : ~ _ < _ |- _ => apply Qnot_lt_le in H
    end; try lra; try lia.
Qed.

Lemma grade_rank_le_4 (g : Grade) : (grade_rank g <= 4)%nat.
Proof. destruct g; simpl; lia. Qed.

Lemma grade_monotone (coc cap cf coc' cap' cf' : Q) :
  coc <= coc' -> cap <= cap' -> cf <= cf' ->
  (grade_rank (getInvestmentGrade coc cap cf)
   <= grade_rank (getInvestmentGrade coc' cap' cf'))%nat.
Proof.
  intros H1 H2 H3.
  destruct (grade_rank_row coc cap cf) as (A0 & A4 & A3 & A2).
  destruct (grade_rank_row coc' cap' cf') as (B0 & B4 & B3 & B2).
  pose proof (grade_rank_le_4 (getInvestmentGrade coc cap cf)) as U.
  set (a := grade_rank (getInvestmentGrade coc cap cf)) in *.
  set (b := grade_rank (getInvestmentGrade coc' cap' cf')) in *.
  destruct (Nat.eq_dec a 0) as [Z|NZ]; [lia|].
  assert (P : 0 <= cf).
  { apply Qnot_lt_le. intro C. apply NZ. apply A0. exact C. }
  assert (NB : b <> 0%nat) by (intro C; apply B0 in C; lra).
  destruct (Nat.eq_dec a 4) as [E4|N4].
  { assert (4 <= b)%nat by (apply B4; destruct (proj1 A4) as (? & ? & ?);
                             [lia | repeat split; lra]). lia. }
  destruct (Nat.eq_dec a 3) as [E3|N3].
  { assert (3 <= b)%nat by (apply B3; destruct (proj1 A3) as (? & ? & ?);
                             [lia | repeat split; lra]). lia. }
  destruct (Nat.eq_dec a 2) as [E2|N2].
  { assert (2 <= b)%nat by (apply B2; destruct (proj1 A2) as (? & ? & ?);
                             [lia | repeat split; lra]). lia. }
  lia.
Qed.

(** X3: better figures never give a worse grade: when the cash-on-cash
    return, the cap rate and the monthly cash flow all stay or grow, the
    grade stays or improves in the order Poor, Below Average, Fair, Good,
    Excellent. *)
Theorem getInvestmentGrade_monotone (coc cap cf coc' cap' cf' : Q) :
  coc <= coc' -> cap <= cap' -> cf <= cf' ->
  (grade_rank (getInvestmentGrade coc cap cf)
   <= grade_rank (getInvestmentGrade coc' cap' cf'))%nat.
Proof.
  intros H1 H2 H3.
  destruct (Qlt_le_dec cf 0) as [N|P].
  - replace (getInvestmentGrade coc cap cf) with PoorNegativeCashFlow.
    + simpl. lia.
    + symmetry. apply grade_from_row. exact N.
  - apply grade_monotone; assumption.
Qed.

Lemma getInvestmentGrade_monotone_witness :
  (grade_rank (getInvestmentGrade 6 5 10)
   <= grade_rank (getInvestmentGrade 9 7 10))%nat.
Proof.
  apply (getInvestmentGrade_monotone 6 5 10 9 7 10);
    vm_compute; discriminate.
Defined.

(** ** More on the mortgage payment *)

(** X7: a term of zero years has no payment, whatever the principal and the
    rate: both branches divide by zero (by the number of payments, or by
    [(1 + monthlyRate)^0 - 1]). *)
Theorem zero_term_has_no_payment (principal annualRate : Q) :
  calculateMortgagePayment principal annualRate 0 = None.
Proof.
  unfold calculateMortgagePayment.
  rewrite div_defined by discriminate. cbv [Js.bind].
  change (0 * 12)%Z with 0%Z.
  destruct (Js.eq (annualRate / 12) 0).
  - apply div_undefined. reflexivity.
  - rewrite pow_defined by lia.
    apply div_undefined. rewrite Qpower_0_r. ring.
Qed.

(** ** The grade as a function of the rent *)

(** X9: a higher rent never gives a worse grade: for the same price and
    down-payment field, both a valid rent and any higher rent get a result
    card, and the grade of the higher rent is the same or better. *)
Theorem higher_rent_never_worse
    (price_field down_field : option Q) (rent rent' : Q) :
  0 < effective price_field -> 0 < rent -> rent <= rent' ->
  exists res res',
    calculateROI price_field down_field (Some rent) = Some (ShowSuccess res)
    /\ calculateROI price_field down_field (Some rent')
       = Some (ShowSuccess res')
    /\ (grade_rank (grade res) <= grade_rank (grade res'))%nat.
Proof.
  intros Hp Hr Hrr.
  assert (Hr' : 0 < rent') by lra.
  exists (result_card (effective price_field) (Js.or_default down_field 20)
            rent),
         (result_card (effective price_field) (Js.or_default down_field 20)
            rent').
  split; [|split].
  - rewrite <- (effective_nonzero rent Hr) at 2.
    apply calculateROI_valid; [exact Hp|].
    rewrite effective_nonzero; assumption.
  - rewrite <- (effective_nonzero rent' Hr') at 2.
    apply calculateROI_valid; [exact Hp|].
    rewrite effective_nonzero; assumption.
  - rewrite !result_card_grade. unfold result_card.
    cbn [cashOnCashReturn capRate monthlyCashFlow].
    set (p := effective price_field) in *.
    set (dp := p * (Js.or_default down_field 20 / 100)).
    set (mm := amortized30 (p - dp)).
    set (me := p * 0.01 / 12).
    apply grade_monotone.
    + destruct (Js.gt dp 0) eqn:G; [|apply Qle_refl]. js_reflect.
      apply Qmult_le_compat_r; [|discriminate].
      apply Qmult_le_compat_r;
        [lra | apply Qlt_le_weak, Qinv_lt_0_compat; exact G].
    + apply Qmult_le_compat_r; [|discriminate].
      apply Qmult_le_compat_r;
        [lra | apply Qlt_le_weak, Qinv_lt_0_compat; exact Hp].
    + lra.
Qed.

Lemma higher_rent_never_worse_witness :
  exists res res',
    calculateROI (Some 300000) None (Some 2000) = Some (ShowSuccess res)
    /\ calculateROI (Some 300000) None (Some 2500) = Some (ShowSuccess res')
    /\ (grade_rank (grade res) <= grade_rank (grade res'))%nat.
Proof.
  apply (higher_rent_never_worse (Some 300000) None 2000 2500);
    try reflexivity; vm_compute; discriminate.
Defined.

(** * The calculator in binary64 *)

Section Binary64Facts.

Local Open Scope float_scope.

(** ** Comparisons *)

Lemma SFcompare_refl (x : spec_float) :
  x <> S754_nan -> SFcompare x x = Some Eq.
Proof.
  destruct x as [s|s| |s m e]; intro H; try congruence.
  - reflexivity.
  - destruct s; reflexivity.
  - cbn. destruct s; rewrite Z.compare_refl, Pos.compare_cont_refl; reflexivity.
Qed.

(** A number above zero is [+Infinity] or a positive finite number. *)
Lemma positive_spec (x : float) :
  (0 <? x) = true ->
  Prim2SF x = S754_infinity false
  \/ exists m e, Prim2SF x = S754_finite false m e.
Proof.
  rewrite ltb_spec. change (Prim2SF 0) with (S754_zero false).
  unfold SFltb. destruct (Prim2SF x) as [s|s| |s m e]; cbn; try discriminate.
  - destruct s; [discriminate|]. intros _. left. reflexivity.
  - destruct s; [discriminate|]. intros _. right. eauto.
Qed.

(** So it is neither [NaN] nor zero, and it fails the test [x <= 0]. *)
Lemma positive_number (x : float) :
  (0 <? x) = true ->
  is_nan x = false /\ (x =? 0) = false /\ (x <=? 0) = false.
Proof.
  intro H. unfold is_nan. rewrite !eqb_spec, leb_spec.
  change (Prim2SF 0) with (S754_zero false).
  unfold SFeqb, SFleb.
  destruct (positive_spec x H) as [E|(m & e & E)]; rewrite E.
  - repeat split; reflexivity.
  - rewrite SFcompare_refl by discriminate. repeat split; reflexivity.
Qed.

Lemma or_default_positive (x d : float) :
  (0 <? x) = true -> Binary64.or_default x d = x.
Proof.
  intro H. destruct (positive_number x H) as (N & Z & _).
  unfold Binary64.or_default. rewrite N, Z. reflexivity.
Qed.

Lemma or_default_zero_b (z d : float) :
  (z =? 0) = true -> Binary64.or_default z d = d.
Proof.
  intro H. unfold Binary64.or_default. rewrite H, orb_true_r. reflexivity.
Qed.

(** A quotient by zero is an infinity or [NaN], never a finite number. *)
Lemma division_by_zero (x : float) : is_finite (x / 0) = false.
Proof.
  unfold is_finite, is_nan, is_infinity.
  rewrite !eqb_spec, abs_spec, div_spec.
  change (Prim2SF 0) with (S754_zero false).
  change (Prim2SF infinity) with (S754_infinity false).
  unfold SF64div, SFdiv, SFeqb.
  destruct (Prim2SF x) as [[]|[]| |[] m e]; reflexivity.
Qed.

(** Two numbers that [=?] tells apart are different. *)
Lemma eqb_false_neq (a b : float) :
  (a =? a) = true -> (a =? b) = false -> a <> b.
Proof. intros R H E. rewrite <- E in H. congruence. Qed.

(** ** The result card *)

(** On a valid input the guard lets the computation through and the card
    holds the values of the formulas, for the percent after [|| 20]. *)
Lemma calculateROI_valid_b
    (pow_approx : float -> float -> float) (p d r : float) :
  (0 <? p) = true -> (0 <? r) = true ->
  exists res,
    Binary64.calculateROI pow_approx p d r = Binary64.ShowSuccess res
    /\ Binary64.section3_formulas p (Binary64.or_default d 20) r res.
Proof.
  intros Hp Hr. unfold Binary64.calculateROI.
  rewrite (or_default_positive p 0 Hp), (or_default_positive r 0 Hr).
  destruct (positive_number p Hp) as (_ & _ & Lp).
  destruct (positive_number r Hr) as (_ & _ & Lr).
  rewrite Lp, Lr. cbn [orb].
  eexists. split; [reflexivity|].
  unfold Binary64.section3_formulas, Binary64.section3_others.
  cbn [Binary64.downPayment Binary64.loanAmount Binary64.monthlyMortgage
       Binary64.monthlyExpenses Binary64.monthlyCashFlow
       Binary64.annualCashFlow Binary64.cashOnCashReturn Binary64.capRate
       Binary64.onePercentRule].
  repeat split; try reflexivity; intro G; rewrite G; reflexivity.
Qed.

(** C2, the claim as stated fails: for a price of 100000, 7 percent down and
    a rent of 2000 the down payment of the card is
    [100000 * (7 / 100) = 7000.000000000001], not [100000 * 7 / 100 = 7000],
    whatever [Math.pow] returns. *)
Lemma section3_formulas_as_stated_fail :
  ~ (exists pow_approx res,
       Binary64.calculateROI pow_approx 100000 7 2000
       = Binary64.ShowSuccess res
       /\ Binary64.section3_as_stated 100000 7 2000 res).
Proof.
  intros (pow_approx & res & E & F & _).
  destruct (calculateROI_valid_b pow_approx 100000 7 2000 eq_refl eq_refl)
    as (res' & E' & F' & _).
  rewrite E in E'. injection E' as <-.
  rewrite F in F'. revert F'. apply eqb_false_neq; reflexivity.
Qed.

(** C2, amended: for every valid input and every down-payment percent other
    than zero, [calculateROI] shows a result whose fields are the binary64
    values of the formulas of section 3, the down payment being
    [propertyPrice * (downPaymentPercent / 100)]; a percent that is not a
    number counts as 20.  Nothing is said of a percent of zero. *)
Theorem calculateROI_section3_formulas
    (pow_approx : float -> float -> float)
    (propertyPrice downPaymentPercent monthlyRent : float) :
  (0 <? propertyPrice) = true -> (0 <? monthlyRent) = true ->
  (downPaymentPercent =? 0) = false ->
  exists res,
    Binary64.calculateROI pow_approx propertyPrice downPaymentPercent
      monthlyRent
    = Binary64.ShowSuccess res
    /\ Binary64.section3_formulas propertyPrice
         (if is_nan downPaymentPercent then 20 else downPaymentPercent)
         monthlyRent res.
Proof.
  intros Hp Hr Hd.
  destruct (calculateROI_valid_b pow_approx propertyPrice downPaymentPercent
              monthlyRent Hp Hr) as (res & E & F).
  exists res. split; [exact E|].
  unfold Binary64.or_default in F. rewrite Hd, orb_false_r in F. exact F.
Qed.

Lemma calculateROI_section3_formulas_witness :
  exists res,
    Binary64.calculateROI Binary64.sample_engine 100000 7 2000
    = Binary64.ShowSuccess res
    /\ Binary64.section3_formulas 100000
         (if is_nan 7 then 20 else 7) 2000 res.
Proof.
  apply (calculateROI_section3_formulas Binary64.sample_engine 100000 7 2000);
    reflexivity.
Defined.

(** The card for a percent of zero: the down payment is that of 20 percent,
    here 60000 of 300000. *)
Lemma zero_percent_down_payment (pow_approx : float -> float -> float) :
  exists res,
    Binary64.calculateROI pow_approx 300000 0 2000 = Binary64.ShowSuccess res
    /\ Binary64.downPayment res = 60000.
Proof. eexists. split; reflexivity. Qed.

(** ** The mortgage payment *)

(** [Math.pow(1, n)] is 1 for every finite [n]. *)
Lemma Math_pow_one (pow_approx : float -> float -> float) (n : float) :
  is_finite n = true -> Binary64.Math_pow pow_approx 1 n = 1.
Proof.
  intro H. unfold Binary64.Math_pow. rewrite H.
  unfold is_finite in H. apply negb_true_iff, orb_false_iff in H.
  destruct H as [N _]. rewrite N.
  destruct (n =? 0); reflexivity.
Qed.

(** C3, the claim as stated fails: for a principal of 123456.78 at an annual
    rate of 4.5 over one year, the monthly rate is 0.375 and the power
    [1.375^12 = 11^12 / 8^12] needs no rounding; with an engine that returns
    it, the code's [principal * (monthlyRate * power)] and the claim's
    [principal * monthlyRate * power] round differently and the two
    payments differ. *)
Lemma amortization_as_stated_fails :
  ~ (forall pow_approx,
       Binary64.mortgage_as_stated pow_approx 123456.78 4.5 1).
Proof.
  intro H.
  destruct (H (fun _ _ => Binary64.power_1375_12)) as [_ A].
  specialize (A eq_refl). revert A.
  apply eqb_false_neq; vm_compute; reflexivity.
Qed.

(** The power used above is the exact one. *)
Lemma power_1375_12_exact :
  match Binary64.to_Q (1 + 4.5 / 12), Binary64.to_Q Binary64.power_1375_12 with
  | Some base, Some power => (power == base ^ 12)%Q
  | _, _ => False
  end.
Proof. vm_compute. reflexivity. Qed.

(** C3, amended: the payment is [principal / (years * 12)] when the monthly
    rate [annualRate / 12] is zero in binary64, and otherwise the binary64
    value of the amortization formula with the product associated as
    [principal * (monthlyRate * power)], every operation and [Math.pow]
    rounded as the engine rounds them.  That value is not always a finite
    number: when [1 + monthlyRate] rounds to 1 the divisor is zero. *)
Theorem calculateMortgagePayment_formula
    (pow_approx : float -> float -> float)
    (principal annualRate years : float) :
  ((annualRate / 12 =? 0) = true ->
   Binary64.calculateMortgagePayment pow_approx principal annualRate years
   = principal / (years * 12))
  /\ ((annualRate / 12 =? 0) = false ->
      Binary64.calculateMortgagePayment pow_approx principal annualRate years
      = Binary64.amortization pow_approx principal (annualRate / 12)
          (years * 12))
  /\ ((annualRate / 12 =? 0) = false ->
      1 + annualRate / 12 = 1 -> is_finite (years * 12) = true ->
      is_finite
        (Binary64.calculateMortgagePayment pow_approx principal annualRate
           years) = false).
Proof.
  unfold Binary64.calculateMortgagePayment, Binary64.amortization.
  split; [|split].
  - intro Z. rewrite Z. reflexivity.
  - intro Z. rewrite Z. reflexivity.
  - intros Z One Fin. rewrite Z, One, (Math_pow_one pow_approx _ Fin).
    change (1 - 1) with 0. apply division_by_zero.
Qed.

Lemma calculateMortgagePayment_formula_witness :
  Binary64.calculateMortgagePayment Binary64.sample_engine 240000 0 30
  = 240000 / (30 * 12)
  /\ Binary64.calculateMortgagePayment Binary64.sample_engine 240000 0.065 30
     = Binary64.amortization Binary64.sample_engine 240000 (0.065 / 12)
         (30 * 12)
  /\ is_finite
       (Binary64.calculateMortgagePayment Binary64.sample_engine 240000
          1e-15 30) = false.
Proof.
  split; [|split].
  - apply (proj1 (calculateMortgagePayment_formula Binary64.sample_engine
                    240000 0 30)).
    reflexivity.
  - apply (proj1 (proj2 (calculateMortgagePayment_formula
                           Binary64.sample_engine 240000 0.065 30))).
    reflexivity.
  - apply (proj2 (proj2 (calculateMortgagePayment_formula
                           Binary64.sample_engine 240000 1e-15 30)));
      reflexivity.
Defined.

(** The payment is not increasing in the rate: a rate of [2^-1074], the
    smallest positive number, has a monthly rate of zero and the payment of
    rate 0, whatever [Math.pow] returns. *)
Lemma payment_plateau :
  ~ (exists pow_approx,
       (Binary64.calculateMortgagePayment pow_approx 240000 0 30
        <? Binary64.calculateMortgagePayment pow_approx 240000 0x1p-1074 30)
       = true).
Proof. intros [pow_approx H]. vm_compute in H. discriminate H. Qed.

(** ** The down-payment default *)

(** C9, the claim as stated fails: the branch that sets the cash-on-cash
    return to zero is reached by a percent that is not negative.  For a
    price of 300000 and a rent of 2000, the percent [2^-1074] is positive and
    survives [|| 20], its hundredth underflows to zero and the down payment
    is zero. *)
Lemma fallback_without_negative_percent :
  ~ (exists pow_approx,
       Binary64.fallback_needs_negative_percent pow_approx
         300000 0x1p-1074 2000).
Proof.
  intros [pow_approx H].
  specialize (H _ eq_refl eq_refl). vm_compute in H. discriminate H.
Qed.

(** Nor is it out of reach when zero is entered: for a price of [2^-1074]
    the 20 percent underflow to zero. *)
Lemma fallback_with_zero_entered (pow_approx : float -> float -> float) :
  exists res,
    Binary64.calculateROI pow_approx 0x1p-1074 0 2000
    = Binary64.ShowSuccess res
    /\ Binary64.downPayment res = 0
    /\ Binary64.cashOnCashReturn res = 0.
Proof. eexists. repeat split; reflexivity. Qed.

(** C9, amended: a down-payment percent of zero is replaced by the default
    20, so the outcome for zero is the outcome for 20, whatever the price and
    the rent; on a valid input the down payment is then
    [propertyPrice * (20 / 100)], and the cash-on-cash return is the zero
    of the fallback exactly when that product is not above zero. *)
Theorem zero_percent_is_default
    (pow_approx : float -> float -> float)
    (price_field rent_field zero : float) :
  (zero =? 0) = true ->
  Binary64.calculateROI pow_approx price_field zero rent_field
  = Binary64.calculateROI pow_approx price_field 20 rent_field
  /\ ((0 <? price_field) = true -> (0 <? rent_field) = true ->
      exists res,
        Binary64.calculateROI pow_approx price_field zero rent_field
        = Binary64.ShowSuccess res
        /\ Binary64.downPayment res = price_field * (20 / 100)
        /\ ((0 <? price_field * (20 / 100)) = false ->
            Binary64.cashOnCashReturn res = 0)
        /\ ((0 <? price_field * (20 / 100)) = true ->
            Binary64.cashOnCashReturn res
            = Binary64.annualCashFlow res / Binary64.downPayment res * 100)).
Proof.
  intro Hz. split.
  - unfold Binary64.calculateROI. rewrite (or_default_zero_b zero 20 Hz).
    reflexivity.
  - intros Hp Hr.
    destruct (calculateROI_valid_b pow_approx price_field zero rent_field
                Hp Hr) as (res & E & F).
    rewrite (or_default_zero_b zero 20 Hz) in F.
    destruct F as (D & _ & _ & _ & _ & C1 & C0 & _).
    exists res. split; [exact E|]. split; [exact D|].
    rewrite <- D. split; assumption.
Qed.

Lemma zero_percent_is_default_witness :
  Binary64.calculateROI Binary64.sample_engine 300000 (-0) 2000
  = Binary64.calculateROI Binary64.sample_engine 300000 20 2000.
Proof.
  apply (proj1 (zero_percent_is_default Binary64.sample_engine
                  300000 2000 (-0) eq_refl)).
Defined.

(** ** Cap rate and one-percent rule *)

(** The two figures are not tied bit for bit: for a price of 300000 and a
    rent of 2000 the cap rate is 7.000000000000001 while
    [12 * onePercentRule - 1] is 7, whatever [Math.pow] returns. *)
Lemma capRate_relation_fails :
  ~ (exists pow_approx res,
       Binary64.calculateROI pow_approx 300000 20 2000
       = Binary64.ShowSuccess res
       /\ Binary64.capRate res = 12 * Binary64.onePercentRule res - 1).
Proof.
  intros (pow_approx & res & E & R).
  vm_compute in E. injection E as <-.
  cbn [Binary64.capRate Binary64.onePercentRule] in R. revert R.
  apply eqb_false_neq; reflexivity.
Qed.

(** ** The scenario of the specification *)

(** The engine of the worked examples answers with the binary64 number
    nearest to the power the calculator asks for: it is within half a unit
    in the last place, [2^-51], of the exact power. *)
Lemma sample_engine_nearest :
  match Binary64.to_Q (1 + 0.065 / 12),
        Binary64.to_Q (Binary64.sample_engine (1 + 0.065 / 12) (30 * 12))
  with
  | Some base, Some power => (Qabs (power - base ^ 360) <= 2 ^ (-51))%Q
  | _, _ => False
  end.
Proof. apply Qle_bool_iff. vm_compute. reflexivity. Qed.

(** With that engine the card of the scenario is, bit for bit: *)
Lemma scenario_with_sample_engine :
  Binary64.calculateROI Binary64.sample_engine 300000 20 2000
  = Binary64.ShowSuccess
      (Binary64.mkResult 60000 240000 1516.9632563831167 250
         233.0367436168833 2796.4409234025998 4.660734872337667
         7.000000000000001 0.6666666666666667 BelowAverage).
Proof. vm_compute. reflexivity. Qed.

(** ** The classes of the result card *)

(** The order tests on a number that is not [NaN]: [x >= 0] is the
    complement of [x < 0]. *)
Lemma ge_zero_not_lt (x : float) :
  is_nan x = false -> (0 <=? x) = negb (x <? 0).
Proof.
  unfold is_nan. rewrite eqb_spec, leb_spec, ltb_spec.
  change (Prim2SF 0) with (S754_zero false).
  unfold SFeqb, SFleb, SFltb.
  destruct (Prim2SF x) as [[]|[]| |[] m e]; cbn; congruence.
Qed.

Lemma nan_fails_tests (x : float) :
  is_nan x = true -> (0 <=? x) = false /\ (x <? 0) = false.
Proof.
  unfold is_nan. rewrite eqb_spec, leb_spec, ltb_spec.
  change (Prim2SF 0) with (S754_zero false).
  unfold SFeqb, SFleb, SFltb.
  destruct (Prim2SF x) as [[]|[]| |[] m e] eqn:E; cbn; try discriminate;
    try (split; reflexivity);
    rewrite Z.compare_refl, Pos.compare_cont_refl; discriminate.
Qed.

(** A number at or above a positive finite number is at or above every
    smaller positive finite number. *)
Lemma leb_lower (m1 m2 : positive) (e1 e2 : Z) (x : spec_float) :
  SFleb (S754_finite false m1 e1) (S754_finite false m2 e2) = true ->
  SFleb (S754_finite false m2 e2) x = true ->
  SFleb (S754_finite false m1 e1) x = true.
Proof.
  unfold SFleb. destruct x as [[]|[]| |[] m e]; cbn; try discriminate;
    try reflexivity.
  rewrite !Pos.compare_cont_spec. cbn [Pos.switch_Eq].
  destruct (Z.compare_spec e1 e2), (Z.compare_spec e2 e), (Z.compare_spec e1 e);
    try discriminate; try reflexivity; try lia; subst;
    destruct (Pos.compare_spec m1 m2), (Pos.compare_spec m2 m),
      (Pos.compare_spec m1 m);
    try discriminate; try reflexivity; lia.
Qed.

Lemma ge_12_ge_8 (x : float) : (12 <=? x) = true -> (8 <=? x) = true.
Proof. rewrite !leb_spec. apply leb_lower. reflexivity. Qed.

Lemma ge_8_ge_6 (x : float) : (8 <=? x) = true -> (6 <=? x) = true.
Proof. rewrite !leb_spec. apply leb_lower. reflexivity. Qed.

(** X4: the classes of the result card agree with its grade as long as the
    cash flow is a number.  A cash flow of the poor grade is always marked
    "negative".  For a cash flow that is not [NaN] the converse holds, and
    the cash flow, the cash-on-cash return and the cap rate are all three
    marked "positive" exactly when the grade is Good or Excellent.  A [NaN]
    cash flow is marked "negative" although the grade is not the poor
    one. *)
Theorem card_classes_agree_with_grade (coc cap cf : float) :
  (Binary64.getInvestmentGrade coc cap cf = PoorNegativeCashFlow ->
   Binary64.cashFlowClass cf = "negative"%string)
  /\ (is_nan cf = false ->
      (Binary64.cashFlowClass cf = "negative"%string
       <-> Binary64.getInvestmentGrade coc cap cf = PoorNegativeCashFlow)
      /\ ((Binary64.cashFlowClass cf = "positive"%string
           /\ Binary64.cashOnCashClass coc = "positive"%string
           /\ Binary64.capRateClass cap = "positive"%string)
          <-> (Binary64.getInvestmentGrade coc cap cf = Good
               \/ Binary64.getInvestmentGrade coc cap cf = Excellent)))
  /\ (is_nan cf = true ->
      Binary64.cashFlowClass cf = "negative"%string
      /\ Binary64.getInvestmentGrade coc cap cf <> PoorNegativeCashFlow).
Proof.
  assert (Poor : Binary64.getInvestmentGrade coc cap cf = PoorNegativeCashFlow
                 <-> (cf <? 0) = true).
  { unfold Binary64.getInvestmentGrade. destruct (cf <? 0).
    - split; reflexivity.
    - split; [|discriminate].
      destruct ((12 <=? coc) && (8 <=? cap))%bool; [discriminate|].
      destruct ((8 <=? coc) && (6 <=? cap))%bool; [discriminate|].
      destruct ((5 <=? coc) && (4 <=? cap))%bool; discriminate. }
  split; [|split].
  - rewrite Poor. intro L. unfold Binary64.cashFlowClass.
    destruct (is_nan cf) eqn:N.
    + rewrite (proj1 (nan_fails_tests cf N)). reflexivity.
    + rewrite (ge_zero_not_lt cf N), L. reflexivity.
  - intro N. split.
    + rewrite Poor. unfold Binary64.cashFlowClass.
      rewrite (ge_zero_not_lt cf N).
      destruct (cf <? 0); split; intro H; try reflexivity; discriminate H.
    + unfold Binary64.cashFlowClass, Binary64.cashOnCashClass,
        Binary64.capRateClass, Binary64.getInvestmentGrade.
      rewrite (ge_zero_not_lt cf N).
      destruct (cf <? 0); cbn [negb].
      * split; [intros [H _]; discriminate H | intros [H|H]; discriminate H].
      * destruct (12 <=? coc) eqn:C12; destruct (8 <=? cap) eqn:K8;
          cbn [andb];
          try rewrite (ge_12_ge_8 coc C12);
          try rewrite (ge_8_ge_6 cap K8);
          try (split; [intros _; right; reflexivity
                      | intros _; repeat split; reflexivity]);
          destruct (8 <=? coc) eqn:C8; destruct (6 <=? cap) eqn:K6;
          cbn [andb];
          try (split; [intros _; left; reflexivity
                      | intros _; repeat split; reflexivity]);
          (split; [intros (_ & H1 & H2); discriminate
                  | intros [H|H];
                    destruct ((5 <=? coc) && (4 <=? cap))%bool;
                    discriminate H]).
  - intro N. destruct (nan_fails_tests cf N) as [G L]. split.
    + unfold Binary64.cashFlowClass. rewrite G. reflexivity.
    + rewrite Poor, L. discriminate.
Qed.

Lemma card_classes_agree_with_grade_witness :
  (Binary64.cashFlowClass 250 = "negative"%string
   <-> Binary64.getInvestmentGrade 9 7 250 = PoorNegativeCashFlow)
  /\ ((Binary64.cashFlowClass 250 = "positive"%string
       /\ Binary64.cashOnCashClass 9 = "positive"%string
       /\ Binary64.capRateClass 7 = "positive"%string)
      <-> (Binary64.getInvestmentGrade 9 7 250 = Good
           \/ Binary64.getInvestmentGrade 9 7 250 = Excellent)).
Proof.
  apply (proj1 (proj2 (card_classes_agree_with_grade 9 7 250))).
  reflexivity.
Defined.

End Binary64Facts.

(** * Number formatting *)

Example formatNumber_1234567 :
  formatNumber 1234567 = Str.of_string "1,234,567".
Proof. reflexivity. Qed.

Example formatNumber_negative :
  formatNumber (-1234) = Str.of_string "-1,234".
Proof. reflexivity. Qed.

Lemma is_digit_word (c : N) : Str.is_digit c = true -> Str.is_word c = true.
Proof. intro H. unfold Str.is_word. rewrite H. reflexivity. Qed.

Lemma non_boundary_digits (p c : N) :
  Str.is_digit p = true -> Str.is_digit c = true ->
  non_boundary (Some p) (Some c) = true.
Proof.
  intros Hp Hc. unfold non_boundary.
  rewrite (is_digit_word p Hp), (is_digit_word c Hc). reflexivity.
Qed.

Lemma boundary_at_start (c : N) :
  Str.is_digit c = true -> non_boundary None (Some c) = false.
Proof.
  intro Hc. unfold non_boundary. rewrite (is_digit_word c Hc). reflexivity.
Qed.

Lemma digit_groups_eq (d1 d2 d3 : N) (tl : list N) :
  digit_groups (d1 :: d2 :: d3 :: tl)
  = Str.is_digit d1 && Str.is_digit d2 && Str.is_digit d3
    && (negb (starts_with_digit tl) || digit_groups tl).
Proof. reflexivity. Qed.

Lemma insert_commas_cons (prev : option N) (c : N) (tl : list N) :
  insert_commas prev (c :: tl)
  = (if non_boundary prev (Some c) && digit_groups (c :: tl)
     then [comma] else [])
    ++ c :: insert_commas (Some c) tl.
Proof. reflexivity. Qed.

Ltac three_digits g Hlen Hdig D1 D2 D3 :=
  let d1 := fresh "d1" in let d2 := fresh "d2" in let d3 := fresh "d3" in
  let d4 := fresh "d4" in let Hd := fresh "Hd" in let Hd' := fresh "Hd" in
  destruct g as [|d1 [|d2 [|d3 [|d4 g]]]]; try discriminate Hlen;
  inversion Hdig as [|? ? D1 Hd]; inversion Hd as [|? ? D2 Hd'];
  inversion Hd' as [|? ? D3 _]; subst.

(** One or two digits before whole groups are not whole groups. *)
Lemma digit_groups_offset (gs : list (list N)) :
  Forall digit_group gs ->
  forall x y : N,
    digit_groups (x :: concat gs) = false
    /\ digit_groups (x :: y :: concat gs) = false.
Proof.
  induction 1 as [|g gs' [Hlen Hdig] Hgs IH]; intros x y.
  - split; reflexivity.
  - three_digits g Hlen Hdig D1 D2 D3.
    cbn [concat app]. split.
    + rewrite digit_groups_eq. cbn [starts_with_digit]. rewrite D3.
      cbn [negb orb].
      rewrite (proj1 (IH d3 d3)). apply andb_false_r.
    + rewrite digit_groups_eq. cbn [starts_with_digit]. rewrite D2.
      cbn [negb orb].
      rewrite (proj2 (IH d2 d3)). apply andb_false_r.
Qed.

(** Whole groups, at least one, are what the lookahead accepts. *)
Lemma digit_groups_whole (gs : list (list N)) :
  Forall digit_group gs -> gs <> [] -> digit_groups (concat gs) = true.
Proof.
  induction 1 as [|g gs' [Hlen Hdig] Hgs IH]; intro N; [contradiction|].
  three_digits g Hlen Hdig D1 D2 D3.
  cbn [concat app]. rewrite digit_groups_eq, D1, D2, D3. cbn [andb].
  destruct gs' as [|g' gs'']; [reflexivity|].
  rewrite IH by discriminate. apply orb_true_r.
Qed.

(** After a digit, every group gets its comma. *)
Lemma insert_commas_groups (gs : list (list N)) :
  Forall digit_group gs ->
  forall p : N,
    Str.is_digit p = true ->
    insert_commas (Some p) (concat gs) = concat (map (cons comma) gs).
Proof.
  induction 1 as [|g gs' [Hlen Hdig] Hgs IH]; intros p Hp; [reflexivity|].
  assert (G : digit_groups (concat (g :: gs')) = true).
  { apply digit_groups_whole; [|discriminate].
    constructor; [split|]; assumption. }
  three_digits g Hlen Hdig D1 D2 D3.
  cbn [map concat app] in *.
  rewrite !insert_commas_cons, G.
  rewrite (non_boundary_digits p d1 Hp D1). cbn [andb app].
  rewrite (proj2 (digit_groups_offset gs' Hgs d2 d3)).
  rewrite (proj1 (digit_groups_offset gs' Hgs d3 d3)).
  rewrite !andb_false_r. cbn [app].
  rewrite (IH d3 D3). reflexivity.
Qed.

Lemma digits_decompose (l : list N) :
  l <> [] -> Forall (fun c => Str.is_digit c = true) l ->
  exists hd gs,
    l = hd ++ concat gs
    /\ (1 <= length hd <= 3)%nat
    /\ Forall (fun c => Str.is_digit c = true) hd
    /\ Forall digit_group gs.
Proof.
  induction l as [|x l IH]; intros N D; [contradiction|].
  inversion D as [|? ? Dx Dl]; subst.
  destruct l as [|y l'].
  - exists [x], []. repeat split; simpl; try lia; auto.
  - destruct (IH ltac:(discriminate) Dl) as (hd & gs & E & L & Dh & G).
    destruct hd as [|h1 [|h2 [|h3 hd']]]; simpl in L; try lia.
    + exists [x; h1], gs. rewrite E. repeat split; simpl; try lia; auto.
    + exists [x; h1; h2], gs. rewrite E.
      repeat split; simpl; try lia; auto.
    + destruct hd' as [|? ?]; simpl in L; [|lia].
      exists [x], ([h1; h2; h3] :: gs). rewrite E.
      repeat split; simpl; try lia; auto.
      constructor; [split; [reflexivity|exact Dh]|exact G].
Qed.

Lemma units_of_uint_digits (d : Decimal.uint) :
  Forall (fun c => Str.is_digit c = true) (Str.units_of_uint d).
Proof. induction d; simpl; constructor; auto. Qed.

Lemma toString_nonneg (n : Z) :
  (0 <= n)%Z ->
  Str.toString n <> []
  /\ Forall (fun c => Str.is_digit c = true) (Str.toString n).
Proof.
  intro H. unfold Str.toString. destruct n as [|p|p]; [| |lia].
  - split; [discriminate | apply units_of_uint_digits].
  - simpl. split; [|apply units_of_uint_digits].
    pose proof (DecimalPos.Unsigned.to_uint_nonnil p) as NN.
    destruct (Pos.to_uint p); [contradiction| | | | | | | | | |];
      discriminate.
Qed.

Lemma formatNumber_string_groups (hd : list N) (gs : list (list N)) :
  Forall (fun c => Str.is_digit c = true) hd ->
  (1 <= length hd <= 3)%nat ->
  Forall digit_group gs ->
  formatNumber_string (hd ++ concat gs) = hd ++ concat (map (cons comma) gs).
Proof.
  intros Dh L G. unfold formatNumber_string.
  destruct hd as [|h1 [|h2 [|h3 [|h4 hd']]]]; simpl in L; try lia;
    repeat match goal with
    | H : Forall _ (_ :: _) |- _ => inversion H; clear H; subst
    end;
    cbn [app]; rewrite !insert_commas_cons;
    rewrite boundary_at_start by assumption; cbn [andb app];
    rewrite ?(proj1 (digit_groups_offset gs G _ h1)),
            ?(proj2 (digit_groups_offset gs G _ _)),
            ?andb_false_r; cbn [app];
    rewrite insert_commas_groups by assumption; reflexivity.
Qed.

(** X10: a non-negative integer (below [10^21]) is printed with a comma
    before each group of three digits counted from the right and nowhere
    else: its digits are a head of one to three digits followed by groups of
    three, and [formatNumber] yields the head followed by each group behind
    a comma. *)
Theorem formatNumber_groups_of_three (n : Z) :
  (0 <= n < 10 ^ 21)%Z ->
  exists hd gs,
    Str.toString n = hd ++ concat gs
    /\ (1 <= length hd <= 3)%nat
    /\ Forall digit_group gs
    /\ formatNumber n = hd ++ concat (map (cons comma) gs).
Proof.
  intros [H0 _]. destruct (toString_nonneg n H0) as [NN D].
  destruct (digits_decompose _ NN D) as (hd & gs & E & L & Dh & G).
  exists hd, gs. repeat split; try assumption; try lia.
  unfold formatNumber. rewrite E.
  apply formatNumber_string_groups; assumption.
Qed.

Lemma formatNumber_groups_of_three_witness :
  exists hd gs,
    Str.toString 1234567 = hd ++ concat gs
    /\ (1 <= length hd <= 3)%nat
    /\ Forall digit_group gs
    /\ formatNumber 1234567 = hd ++ concat (map (cons comma) gs).
Proof.
  apply (formatNumber_groups_of_three 1234567). split; [lia | reflexivity].
Defined.

(** X11: the commas are all [formatNumber] adds: without its commas the
    output is the input without its commas, for every string. *)
Theorem formatNumber_only_adds_commas (s : list N) :
  strip_commas (formatNumber_string s) = strip_commas s.
Proof.
  unfold formatNumber_string. generalize (@None N) as prev.
  induction s as [|c tl IH]; intro prev; [reflexivity|].
  rewrite insert_commas_cons. unfold strip_commas in *.
  rewrite filter_app. cbn [filter]. rewrite IH.
  destruct (non_boundary prev (Some c) && digit_groups (c :: tl));
    reflexivity.
Qed.

Lemma not_word_not_digit (c : N) :
  Str.is_word c = false -> Str.is_digit c = false.
Proof.
  intro H. destruct (Str.is_digit c) eqn:D; [|reflexivity].
  rewrite (is_digit_word c D) in H. discriminate H.
Qed.

(** The lookahead does not see past a unit that is not a digit. *)
Lemma digit_groups_stop (c : N) (b : list N) :
  Str.is_digit c = false ->
  forall (n : nat) (a : list N),
    (length a <= n)%nat -> digit_groups (a ++ c :: b) = digit_groups a.
Proof.
  intros Hc n. induction n as [|n IH]; intros a L.
  - destruct a; [|simpl in L; lia].
    cbn [app]. destruct b as [|y [|z b]]; try reflexivity.
    rewrite digit_groups_eq, Hc. reflexivity.
  - destruct a as [|x [|y [|z a]]].
    + cbn [app]. destruct b as [|y [|z b]]; try reflexivity.
      rewrite digit_groups_eq, Hc. reflexivity.
    + cbn [app]. destruct b as [|z b]; [reflexivity|].
      rewrite digit_groups_eq, Hc, andb_false_r. reflexivity.
    + cbn [app]. rewrite digit_groups_eq, Hc, andb_false_r. reflexivity.
    + cbn [app]. rewrite !digit_groups_eq.
      rewrite (IH a) by (simpl in L; lia).
      destruct a; cbn [app starts_with_digit]; [rewrite Hc|]; reflexivity.
Qed.

Lemma insert_commas_after_nonword (c : N) (b : list N) :
  Str.is_word c = false -> insert_commas (Some c) b = insert_commas None b.
Proof.
  intro Hc. destruct b as [|x b]; [reflexivity|].
  rewrite !insert_commas_cons. unfold non_boundary. rewrite Hc. reflexivity.
Qed.

Lemma insert_commas_separator (c : N) (b : list N) :
  Str.is_word c = false ->
  forall (a : list N) (prev : option N),
    insert_commas prev (a ++ c :: b)
    = insert_commas prev a ++ c :: insert_commas None b.
Proof.
  intros Hc a. pose proof (not_word_not_digit c Hc) as Hd.
  induction a as [|x a IH]; intro prev.
  - cbn [app]. rewrite insert_commas_cons.
    pose proof (digit_groups_stop c b Hd 0 [] (le_n 0)) as S0.
    cbn [app] in S0. rewrite S0.
    rewrite andb_false_r, (insert_commas_after_nonword c b Hc). reflexivity.
  - change ((x :: a) ++ c :: b) with (x :: (a ++ c :: b)).
    rewrite !insert_commas_cons, IH.
    change (x :: a ++ c :: b) with ((x :: a) ++ c :: b).
    rewrite (digit_groups_stop c b Hd (length (x :: a)) (x :: a) (le_n _)).
    rewrite <- app_assoc. reflexivity.
Qed.

(** X12: a unit that is not a word character (a minus sign, a decimal
    point, a space) separates the formatting: what stands before it and what
    stands after it are formatted independently.  So the sign of a negative
    number is never followed by a comma, and the digits after a decimal
    point are grouped as well. *)
Theorem formatNumber_separator (a b : list N) (c : N) :
  Str.is_word c = false ->
  formatNumber_string (a ++ c :: b)
  = formatNumber_string a ++ c :: formatNumber_string b.
Proof.
  intro Hc. unfold formatNumber_string.
  apply insert_commas_separator. exact Hc.
Qed.

Lemma formatNumber_separator_witness :
  formatNumber_string (Str.of_string "1234" ++ 46%N :: Str.of_string "5678")
  = formatNumber_string (Str.of_string "1234")
    ++ 46%N :: formatNumber_string (Str.of_string "5678").
Proof.
  apply (formatNumber_separator (Str.of_string "1234") (Str.of_string "5678")
           46%N).
  reflexivity.
Defined.

Example formatNumber_fraction :
  formatNumber_string (Str.of_string "1234.5678")
  = Str.of_string "1,234.5,678".
Proof. reflexivity. Qed.

(** * The counter animation *)






(** * Reading time *)

Lemma split_go_length (s : list N) :
  forall (piece : list N) (in_run : bool),
    length (Str.split_go piece in_run s) = S (whitespace_runs in_run s).
Proof.
  induction s as [|c tl IH]; intros piece in_run; [reflexivity|].
  cbn [Str.split_go whitespace_runs].
  destruct (Str.is_whitespace c); [destruct in_run|];
    cbn [length]; rewrite IH; reflexivity.
Qed.

Lemma ends_in_word_cons (c : N) (tl : list N) :
  ends_in_word (c :: tl) = true ->
  (tl = [] /\ Str.is_whitespace c = false) \/ ends_in_word tl = true.
Proof.
  destruct tl as [|d tl]; cbn [ends_in_word].
  - intro H. left. split; [reflexivity|].
    apply negb_true_iff. exact H.
  - intro H. right. exact H.
Qed.

(** In a text that ends in a word every run of white space is followed by
    one more word. *)
Lemma words_and_runs (s : list N) :
  (s = [] \/ ends_in_word s = true ->
   count_words true s = whitespace_runs false s)
  /\ (ends_in_word s = true ->
      count_words false s = S (whitespace_runs true s)).
Proof.
  induction s as [|c tl [IH1 IH2]].
  - split; [reflexivity | discriminate].
  - cbn [count_words whitespace_runs].
    destruct (Str.is_whitespace c) eqn:W.
    + assert (T : ends_in_word (c :: tl) = true -> ends_in_word tl = true).
      { intro H. destruct (ends_in_word_cons c tl H) as [[_ C]|C];
          [rewrite W in C; discriminate C | exact C]. }
      split.
      * intros [C|C]; [discriminate C|]. rewrite (IH2 (T C)). reflexivity.
      * intro C. rewrite (IH2 (T C)). reflexivity.
    + assert (T : ends_in_word (c :: tl) = true ->
                  tl = [] \/ ends_in_word tl = true).
      { intro H. destruct (ends_in_word_cons c tl H) as [[C _]|C];
          [left | right]; exact C. }
      split.
      * intros [C|C]; [discriminate C|]. rewrite (IH1 (T C)). reflexivity.
      * intro C. rewrite (IH1 (T C)). reflexivity.
Qed.

Lemma drop_whitespace_head (s : list N) (c : N) (tl : list N) :
  Str.drop_whitespace s = c :: tl -> Str.is_whitespace c = false.
Proof.
  induction s as [|x s IH]; [discriminate|].
  cbn [Str.drop_whitespace]. destruct (Str.is_whitespace x) eqn:W.
  - exact IH.
  - intro H. injection H as <- _. exact W.
Qed.

Lemma count_words_drop (s : list N) :
  count_words false (Str.drop_whitespace s) = count_words false s.
Proof.
  induction s as [|x s IH]; [reflexivity|].
  cbn [Str.drop_whitespace]. destruct (Str.is_whitespace x) eqn:W.
  - cbn [count_words]. rewrite W. exact IH.
  - reflexivity.
Qed.

Lemma count_words_trailing (w : list N) :
  Forall (fun c => Str.is_whitespace c = true) w ->
  forall (a : list N) (in_word : bool),
    count_words in_word (a ++ w) = count_words in_word a.
Proof.
  intros Hw a. induction a as [|x a IH]; intro in_word.
  - cbn [app]. revert in_word.
    induction Hw as [|c w Hc _ IHw]; intro in_word; [reflexivity|].
    cbn [count_words]. rewrite Hc. rewrite IHw.
    destruct in_word; reflexivity.
  - cbn [app count_words]. rewrite !IH. reflexivity.
Qed.

Lemma ends_in_word_last (a : list N) (c : N) :
  ends_in_word (a ++ [c]) = negb (Str.is_whitespace c).
Proof.
  induction a as [|x a IH]; [reflexivity|].
  cbn [app]. rewrite <- IH.
  destruct a; reflexivity.
Qed.

(** What is left when the trailing white space is dropped. *)
Lemma drop_trailing (s : list N) :
  exists a w,
    s = a ++ w
    /\ Forall (fun c => Str.is_whitespace c = true) w
    /\ rev (Str.drop_whitespace (rev s)) = a
    /\ (a = [] \/ ends_in_word a = true).
Proof.
  induction s as [|x s IH] using rev_ind.
  - exists [], []. repeat split; auto.
  - rewrite rev_app_distr. cbn [rev app Str.drop_whitespace].
    destruct (Str.is_whitespace x) eqn:W.
    + destruct IH as (a & w & E & Hw & R & End).
      exists a, (w ++ [x]). repeat split; try assumption.
      * rewrite E, app_assoc. reflexivity.
      * apply Forall_app. split; [exact Hw|]. constructor; auto.
    + exists (s ++ [x]), []. repeat split.
      * rewrite app_nil_r. reflexivity.
      * constructor.
      * cbn [rev]. rewrite rev_involutive. reflexivity.
      * right. rewrite ends_in_word_last, W. reflexivity.
Qed.

(** The pieces of the trimmed text are its words, or the one empty piece
    of a text without words. *)
Lemma pieces_are_words (text : list N) :
  length (Str.split_whitespace (Str.trim text))
  = Nat.max 1 (count_words false text).
Proof.
  unfold Str.split_whitespace, Str.trim. rewrite split_go_length.
  destruct (drop_trailing (Str.drop_whitespace text))
    as (a & w & E & Hw & R & End).
  rewrite R.
  assert (C : count_words false text = count_words false a).
  { rewrite <- count_words_drop, E. apply count_words_trailing. exact Hw. }
  rewrite C. destruct a as [|c a].
  - reflexivity.
  - destruct End as [End|End]; [discriminate End|].
    assert (W : Str.is_whitespace c = false).
    { apply (drop_whitespace_head text c (a ++ w)). exact E. }
    destruct (words_and_runs (c :: a)) as [_ WR].
    rewrite (WR End).
    cbn [whitespace_runs]. rewrite W. lia.
Qed.

(** X14: the reading time is the number of words of the text divided by
    200 and rounded up, where a text without words counts as one word: the
    minutes [m] satisfy [200 * (m - 1) < max 1 words <= 200 * m].  So the
    estimate is at least one minute, also for an empty or blank text. *)
Theorem calculateReadingTime_words (text : list N) :
  exists minutes,
    calculateReadingTime text = Some minutes
    /\ (200 * (minutes - 1)
        < Z.of_nat (Nat.max 1 (count_words false text))
        <= 200 * minutes)%Z
    /\ (1 <= minutes)%Z.
Proof.
  unfold calculateReadingTime. rewrite pieces_are_words.
  rewrite div_defined by discriminate. cbv [Js.bind].
  set (w := Z.of_nat (Nat.max 1 (count_words false text))).
  assert (W : (1 <= w)%Z) by (unfold w; lia).
  eexists. split; [reflexivity|].
  pose proof (Qle_ceiling (inject_Z w / 200)) as U.
  pose proof (Qceiling_lt (inject_Z w / 200)) as L.
  set (m := Qceiling (inject_Z w / 200)) in *.
  assert (U' : inject_Z w <= inject_Z (200 * m)).
  { rewrite inject_Z_mult. change (inject_Z 200) with 200.
    apply (Qmult_le_l _ _ (/ 200)); [reflexivity|].
    setoid_replace (/ 200 * inject_Z w) with (inject_Z w / 200) by field.
    setoid_replace (/ 200 * (200 * inject_Z m)) with (inject_Z m) by field.
    exact U. }
  assert (L' : inject_Z (200 * (m - 1)) < inject_Z w).
  { rewrite inject_Z_mult. change (inject_Z 200) with 200.
    apply (Qmult_lt_l _ _ (/ 200)); [reflexivity|].
    setoid_replace (/ 200 * inject_Z w) with (inject_Z w / 200) by field.
    setoid_replace (/ 200 * (200 * inject_Z (m - 1)))
      with (inject_Z (m - 1)) by field.
    exact L. }
  rewrite <- Zle_Qle in U'. rewrite <- Zlt_Qlt in L'. lia.
Qed.

Example calculateReadingTime_blank :
  calculateReadingTime (Str.of_string "  ") = Some 1%Z.
Proof. reflexivity. Qed.

(** * Regular expressions and the e-mail check *)

Lemma nullable_lang (r : regex) : nullable r = true <-> lang r [].
Proof.
  induction r as [| |p|r1 IH1 r2 IH2|r1 IH1 r2 IH2|r IH]; cbn [nullable lang].
  - split; [discriminate | contradiction].
  - split; reflexivity.
  - split; [discriminate | intros (c & E & _); discriminate E].
  - rewrite andb_true_iff, IH1, IH2. split.
    + intros [H1 H2]. exists [], []. auto.
    + intros (s1 & s2 & E & H1 & H2).
      symmetry in E. apply app_eq_nil in E. destruct E; subst. auto.
  - rewrite orb_true_iff, IH1, IH2. reflexivity.
  - split; [|reflexivity]. intros _. exists []. split; [reflexivity|constructor].
Qed.

Lemma derive_lang (r : regex) :
  forall (c : N) (s : list N), lang (derive c r) s <-> lang r (c :: s).
Proof.
  induction r as [| |p|r1 IH1 r2 IH2|r1 IH1 r2 IH2|r IH]; intros c s;
    cbn [derive].
  - reflexivity.
  - cbn [lang]. split; [contradiction | discriminate].
  - destruct (p c) eqn:P; cbn [lang].
    + split.
      * intros ->. exists c. auto.
      * intros (d & E & _). injection E as _ E. exact E.
    + split; [contradiction|].
      intros (d & E & Pd). injection E as -> _. rewrite P in Pd.
      discriminate Pd.
  - assert (S1 : lang (Seq (derive c r1) r2) s ->
                 lang (Seq r1 r2) (c :: s)).
    { intros (s1 & s2 & E & H1 & H2). exists (c :: s1), s2.
      rewrite E. split; [reflexivity|]. split; [apply IH1; exact H1|exact H2]. }
    assert (S2 : forall s1 s2, c :: s = s1 ++ s2 -> s1 <> [] ->
                 lang r1 s1 -> lang r2 s2 ->
                 lang (Seq (derive c r1) r2) s).
    { intros s1 s2 E N1 H1 H2. destruct s1 as [|d s1]; [contradiction|].
      injection E as <- ->. exists s1, s2.
      split; [reflexivity|]. split; [apply IH1; exact H1|exact H2]. }
    destruct (nullable r1) eqn:Nu.
    + change (lang (Alt (Seq (derive c r1) r2) (derive c r2)) s)
        with (lang (Seq (derive c r1) r2) s \/ lang (derive c r2) s).
      split.
      * intros [H|H]; [apply S1; exact H|].
        exists [], (c :: s). split; [reflexivity|].
        split; [apply nullable_lang; exact Nu | apply IH2; exact H].
      * intros (s1 & s2 & E & H1 & H2). destruct s1 as [|d s1].
        -- right. apply IH2. cbn [app] in E. rewrite E. exact H2.
        -- left. apply (S2 (d :: s1) s2 E); [discriminate|assumption..].
    + split; [exact S1|].
      intros (s1 & s2 & E & H1 & H2). destruct s1 as [|d s1].
      * apply nullable_lang in H1. rewrite Nu in H1. discriminate H1.
      * apply (S2 (d :: s1) s2 E); [discriminate|assumption..].
  - cbn [lang]. rewrite IH1, IH2. reflexivity.
  - change (lang (Seq (derive c r) (Star r)) s)
      with (exists s1 s2, s = s1 ++ s2 /\ lang (derive c r) s1
                          /\ lang (Star r) s2).
    split.
    + intros (s1 & s2 & E & H1 & (pieces & E2 & F)).
      exists ((c :: s1) :: pieces). split.
      * cbn [concat]. rewrite E, E2. reflexivity.
      * constructor; [|exact F]. split; [discriminate | apply IH; exact H1].
    + intros (pieces & E & F). destruct F as [|x pieces [Nx Hx] F].
      * discriminate E.
      * destruct x as [|d x]; [contradiction|].
        cbn [concat app] in E. injection E as <- ->.
        exists x, (concat pieces). split; [reflexivity|].
        split; [apply IH; exact Hx|]. exists pieces. auto.
Qed.

(** The derivative matcher decides membership. *)
Lemma matches_lang (s : list N) :
  forall r : regex, matches r s = true <-> lang r s.
Proof.
  induction s as [|c s IH]; intro r; cbn [matches].
  - apply nullable_lang.
  - rewrite IH. apply derive_lang.
Qed.

Lemma lang_plus_class (p : N -> bool) (s : list N) :
  lang (Plus (Class p)) s
  <-> s <> [] /\ Forall (fun c => p c = true) s.
Proof.
  unfold Plus. cbn [lang]. split.
  - intros (s1 & s2 & E & (c & E1 & Pc) & (pieces & E2 & F)). subst.
    split; [discriminate|]. constructor; [exact Pc|].
    induction F as [|x pieces [_ (d & Ex & Pd)] F IH];
      [constructor|].
    subst. cbn [concat app]. constructor; assumption.
  - intros [Ne F]. destruct F as [|c s Pc F]; [contradiction|].
    exists [c], s. split; [reflexivity|].
    split; [exists c; auto|].
    exists (map (fun d => [d]) s). split.
    + clear. induction s as [|d s IH]; [reflexivity|].
      cbn [map concat app]. rewrite <- IH. reflexivity.
    + clear Ne Pc. induction F as [|d s Pd F IH]; cbn [map]; constructor.
      * split; [discriminate|]. exists d. auto.
      * exact IH.
Qed.

Lemma lang_class_eqb (a : N) (s : list N) :
  lang (Class (N.eqb a)) s <-> s = [a].
Proof.
  cbn [lang]. split.
  - intros (c & E & P). apply N.eqb_eq in P. subst. reflexivity.
  - intros ->. exists a. split; [reflexivity | apply N.eqb_refl].
Qed.

(** X15: an e-mail address is accepted exactly when it reads
    [local@domain.tail] where the three parts are not empty and contain
    neither white space nor [@] (the domain and the tail may contain full
    stops). *)
Theorem isValidEmail_shape (email : list N) :
  isValidEmail email = true
  <-> exists local domain tail,
        email = local ++ at_sign :: domain ++ full_stop :: tail
        /\ email_part local /\ email_part domain /\ email_part tail.
Proof.
  unfold isValidEmail. rewrite matches_lang. unfold emailRegex, email_part.
  split.
  - intros (l & s1 & E1 & Hl & a & s2 & E2 & Ha & d & s3 & E3 & Hd
            & f & t & E4 & Hf & Ht).
    apply lang_plus_class in Hl. apply lang_plus_class in Hd.
    apply lang_plus_class in Ht.
    apply lang_class_eqb in Ha. apply lang_class_eqb in Hf. subst.
    exists l, d, t. split; [reflexivity|]. auto.
  - intros (l & d & t & E & Hl & Hd & Ht). subst.
    exists l, (at_sign :: d ++ full_stop :: t). split; [reflexivity|].
    split; [apply lang_plus_class; exact Hl|].
    exists [at_sign], (d ++ full_stop :: t). split; [reflexivity|].
    split; [apply lang_class_eqb; reflexivity|].
    exists d, (full_stop :: t). split; [reflexivity|].
    split; [apply lang_plus_class; exact Hd|].
    exists [full_stop], t. split; [reflexivity|].
    split; [apply lang_class_eqb; reflexivity|].
    apply lang_plus_class. exact Ht.
Qed.

Example isValidEmail_examples :
  isValidEmail (Str.of_string "ana@example.co.uk") = true
  /\ isValidEmail (Str.of_string "ana@example") = false
  /\ isValidEmail (Str.of_string "ana maria@example.com") = false
  /\ isValidEmail (Str.of_string "ana@@example.com") = false
  /\ isValidEmail (Str.of_string "ana@example.") = false.
Proof. repeat split; reflexivity. Qed.

Lemma isValidEmail_parts (email : list N) :
  isValidEmail email = true ->
  exists local domain tail,
    email = local ++ at_sign :: domain ++ full_stop :: tail
    /\ email_part local /\ email_part domain /\ email_part tail.
Proof.
  unfold isValidEmail. rewrite matches_lang. unfold emailRegex.
  intros (l & s1 & E1 & Hl & a & s2 & E2 & Ha & d & s3 & E3 & Hd
          & f & t & E4 & Hf & Ht).
  apply lang_plus_class in Hl. apply lang_plus_class in Hd.
  apply lang_plus_class in Ht.
  apply lang_class_eqb in Ha. apply lang_class_eqb in Hf. subst.
  exists l, d, t. split; [reflexivity|]. unfold email_part. auto.
Qed.

Lemma email_part_no_at (s : list N) :
  Forall (fun c => not_space_or_at c = true) s ->
  count_occ N.eq_dec s at_sign = 0%nat
  /\ Forall (fun c => Str.is_whitespace c = false) s.
Proof.
  induction 1 as [|c s Hc _ [IH1 IH2]]; [split; [reflexivity|constructor]|].
  unfold not_space_or_at in Hc. apply negb_true_iff, orb_false_iff in Hc.
  destruct Hc as [W A]. apply N.eqb_neq in A. split.
  - rewrite count_occ_cons_neq by exact A. exact IH1.
  - constructor; assumption.
Qed.

(** X16: an accepted e-mail address contains exactly one [@], contains no
    white space, does not begin with the [@] and has at least five
    units. *)
Theorem isValidEmail_necessary (email : list N) :
  isValidEmail email = true ->
  count_occ N.eq_dec email at_sign = 1%nat
  /\ Forall (fun c => Str.is_whitespace c = false) email
  /\ hd_error email <> Some at_sign
  /\ (5 <= length email)%nat.
Proof.
  intro H.
  destruct (isValidEmail_parts email H)
    as (l & d & t & E & [Nl Fl] & [Nd Fd] & [Nt Ft]).
  destruct (email_part_no_at l Fl) as [Cl Wl].
  destruct (email_part_no_at d Fd) as [Cd Wd].
  destruct (email_part_no_at t Ft) as [Ct Wt].
  assert (Wa : Str.is_whitespace at_sign = false) by reflexivity.
  assert (Wf : Str.is_whitespace full_stop = false) by reflexivity.
  subst email. repeat split.
  - rewrite count_occ_app, Cl. cbn [count_occ].
    destruct (N.eq_dec at_sign at_sign) as [_|C]; [|contradiction].
    rewrite count_occ_app, Cd. cbn [count_occ].
    destruct (N.eq_dec full_stop at_sign) as [C|_]; [discriminate C|].
    rewrite Ct. reflexivity.
  - apply Forall_app. split; [exact Wl|]. constructor; [exact Wa|].
    apply Forall_app. split; [exact Wd|]. constructor; assumption.
  - destruct l as [|c l]; [contradiction|]. cbn [app hd_error].
    inversion Fl as [|? ? Pc _]; subst. intro C. injection C as ->.
    discriminate Pc.
  - rewrite length_app. cbn [length]. rewrite length_app. cbn [length].
    destruct l; [contradiction|]. destruct d; [contradiction|].
    destruct t; [contradiction|]. cbn [length]. lia.
Qed.

Lemma isValidEmail_necessary_witness :
  count_occ N.eq_dec (Str.of_string "a@b.c") at_sign = 1%nat
  /\ Forall (fun c => Str.is_whitespace c = false) (Str.of_string "a@b.c")
  /\ hd_error (Str.of_string "a@b.c") <> Some at_sign
  /\ (5 <= length (Str.of_string "a@b.c"))%nat.
Proof.
  apply (isValidEmail_necessary (Str.of_string "a@b.c")). reflexivity.
Defined.

(** A full stop at the end, or right after the [@], does not make an
    address invalid. *)
Example isValidEmail_lenient :
  isValidEmail (Str.of_string "ana@example.com.") = true
  /\ isValidEmail (Str.of_string "ana@.example.com") = true.
Proof. split; reflexivity. Qed.

Lemma isValidEmail_empty : isValidEmail [] = false.
Proof. reflexivity. Qed.

(** X17: the check on leaving the field and the check on submitting agree
    on every value that is not blank: the submission is refused exactly
    when the field is flagged or blank.  A blank field is never flagged on
    leaving it, and always refused on submitting. *)
Theorem newsletter_checks_agree (value : list N) :
  (handleSubmit_accepts value = false
   <-> validateEmail value = false \/ Str.trim value = [])
  /\ (Str.trim value = [] ->
      validateEmail value = true /\ handleSubmit_accepts value = false)
  /\ (handleSubmit_accepts value = true ->
      isValidEmail (Str.trim value) = true /\ validateEmail value = true).
Proof.
  unfold handleSubmit_accepts, validateEmail.
  destruct (Str.trim value) as [|c email] eqn:T.
  - rewrite isValidEmail_empty. cbn [negb].
    repeat split; auto; try discriminate.
  - destruct (isValidEmail (c :: email)); cbn [negb];
      repeat split; auto; try discriminate;
      try (intros [C|C]; discriminate C).
Qed.

Lemma newsletter_checks_agree_witness :
  validateEmail (Str.of_string "  ") = true
  /\ handleSubmit_accepts (Str.of_string "  ") = false.
Proof.
  apply (proj1 (proj2 (newsletter_checks_agree (Str.of_string "  ")))).
  reflexivity.
Defined.

(** * Scrolling *)

(** The clamp of [updateReadingProgress]. *)
Lemma clamp_bounds (q : Q) : 0 <= Qmin (Qmax q 0) 1 <= 1.
Proof.
  split.
  - apply Q.min_glb; [apply Q.le_max_r | discriminate].
  - apply Q.le_min_r.
Qed.

(** X18: the reading progress, whenever it is a number, is a fraction
    between 0 and 1.  It is 0 on a page without an article.  For an article
    of positive height it is defined, it is 0 exactly while the bottom of
    the window is at or above the top of the article, 1 exactly once the
    bottom of the window has reached the end of the article, and it never
    decreases when the page is scrolled down.  For an article of height
    zero it is 1 once the bottom of the window is below the top of the
    article, 0 while it is above it, and not a number when the two
    coincide. *)
Theorem updateReadingProgress_fraction
    (article : Article) (innerHeight pageYOffset : Q) :
  updateReadingProgress None innerHeight pageYOffset = Some 0
  /\ (forall progress,
        updateReadingProgress (Some article) innerHeight pageYOffset
        = Some progress ->
        0 <= progress <= 1)
  /\ (offsetHeight article == 0 ->
      (offsetTop article < pageYOffset + innerHeight ->
       updateReadingProgress (Some article) innerHeight pageYOffset = Some 1)
      /\ (pageYOffset + innerHeight < offsetTop article ->
          updateReadingProgress (Some article) innerHeight pageYOffset
          = Some 0)
      /\ (pageYOffset + innerHeight == offsetTop article ->
          updateReadingProgress (Some article) innerHeight pageYOffset
          = None))
  /\ (0 < offsetHeight article ->
      exists progress,
        updateReadingProgress (Some article) innerHeight pageYOffset
        = Some progress
        /\ (progress == 0
            <-> pageYOffset + innerHeight <= offsetTop article)
        /\ (progress == 1
            <-> offsetTop article + offsetHeight article
                <= pageYOffset + innerHeight)
        /\ forall further progress',
             pageYOffset <= further ->
             updateReadingProgress (Some article) innerHeight further
             = Some progress' ->
             progress <= progress').
Proof.
  split; [reflexivity|]. split; [|split].
  - intro progress. unfold updateReadingProgress.
    destruct (Js.eq (offsetHeight article) 0).
    + destruct (Js.gt _ 0); [intro E; injection E as <-; split; discriminate|].
      destruct (Js.lt _ 0); [|discriminate].
      intro E. injection E as <-. split; discriminate.
    + intro E. injection E as <-. apply clamp_bounds.
  - intro Z. unfold updateReadingProgress.
    rewrite (proj2 (eq_true _ _) Z). split; [|split]; intro H.
    + rewrite (proj2 (gt_true _ _)) by lra. reflexivity.
    + rewrite (proj2 (gt_false _ _)) by lra.
      rewrite (proj2 (lt_true _ _)) by lra. reflexivity.
    + rewrite (proj2 (gt_false _ _)) by lra.
      rewrite (proj2 (lt_false _ _)) by lra. reflexivity.
  - intro H. unfold updateReadingProgress.
    assert (NZ : ~ offsetHeight article == 0) by lra.
    rewrite (proj2 (eq_false _ _) NZ).
    eexists. split; [reflexivity|].
    set (h := offsetHeight article) in *.
    set (x := pageYOffset - offsetTop article + innerHeight).
    assert (R0 : x / h <= 0 <-> x <= 0).
    { split; intro C.
      - apply Qnot_lt_le. intro P.
        assert (0 < x / h) by (apply Qlt_shift_div_l; lra). lra.
      - apply Qle_shift_div_r; lra. }
    assert (R1 : 1 <= x / h <-> h <= x).
    { split; intro C.
      - apply Qnot_lt_le. intro P.
        assert (x / h < 1) by (apply Qlt_shift_div_r; lra). lra.
      - apply Qle_shift_div_l; lra. }
    assert (M0 : forall q, Qmin (Qmax q 0) 1 == 0 <-> q <= 0).
    { intro q. destruct (Qlt_le_dec 0 q) as [P|P].
      - rewrite (Q.max_l q 0) by lra.
        destruct (Qlt_le_dec q 1) as [P1|P1].
        + rewrite Q.min_l by lra. split; intro; lra.
        + rewrite Q.min_r by lra. split; intro C; [discriminate C | lra].
      - rewrite (Q.max_r q 0) by lra. rewrite Q.min_l by discriminate.
        split; intro; [exact P | reflexivity]. }
    assert (M1 : forall q, Qmin (Qmax q 0) 1 == 1 <-> 1 <= q).
    { intro q. destruct (Qlt_le_dec q 1) as [P|P].
      - assert (Qmax q 0 < 1) by (apply Q.max_lub_lt; [exact P|reflexivity]).
        rewrite Q.min_l by lra. split; intro; lra.
      - rewrite (Q.max_l q 0) by lra. rewrite Q.min_r by lra.
        split; intro; [exact P | reflexivity]. }
    split; [|split].
    + rewrite M0, R0. unfold x. split; intro; lra.
    + rewrite M1, R1. unfold x, h. split; intro; lra.
    + intros further progress' F E. injection E as <-.
      apply Q.min_le_compat_r. apply Q.max_le_compat_r.
      apply Qmult_le_compat_r;
        [unfold x; lra | apply Qlt_le_weak, Qinv_lt_0_compat; exact H].
Qed.

Lemma updateReadingProgress_fraction_witness :
  updateReadingProgress (Some (mkArticle 400 0)) 800 600 = Some 1.
Proof.
  apply (proj1 (proj2 (proj2 (updateReadingProgress_fraction
                                (mkArticle 400 0) 800 600)))
           ltac:(reflexivity)).
  reflexivity.
Defined.

Lemma Qmult_le_nonneg_l (z x y : Q) : 0 <= z -> x <= y -> z * x <= z * y.
Proof.
  intros Hz H. rewrite !(Qmult_comm z).
  apply Qmult_le_compat_r; assumption.
Qed.

(** X19: with a threshold between 0 and 1 and a window whose height and
    width are not negative, an element reported in the viewport really
    overlaps the window, and a stricter threshold never reports more: what
    is in the viewport for a threshold is in it for every smaller one. *)
Theorem isInViewport_overlaps
    (rect : Rect) (innerHeight clientHeight innerWidth clientWidth : Q)
    (threshold smaller : Q) :
  0 <= number_or innerHeight clientHeight ->
  0 <= number_or innerWidth clientWidth ->
  0 <= smaller -> smaller <= threshold -> threshold <= 1 ->
  isInViewport rect innerHeight clientHeight innerWidth clientWidth threshold
  = true ->
  (rect_top rect <= number_or innerHeight clientHeight
   /\ 0 <= rect_bottom rect
   /\ rect_left rect <= number_or innerWidth clientWidth
   /\ 0 <= rect_right rect)
  /\ isInViewport rect innerHeight clientHeight innerWidth clientWidth smaller
     = true.
Proof.
  intros HH HW H0 Hs H1. unfold isInViewport.
  set (H := number_or innerHeight clientHeight) in *.
  set (W := number_or innerWidth clientWidth) in *.
  rewrite !andb_true_iff, !le_true, !ge_true.
  intros [[[T B] L] R].
  assert (P1 : H * smaller <= H * threshold)
    by (apply Qmult_le_nonneg_l; lra).
  assert (P2 : W * smaller <= W * threshold)
    by (apply Qmult_le_nonneg_l; lra).
  assert (P3 : 0 <= H * smaller) by (apply Qmult_le_0_compat; lra).
  assert (P4 : 0 <= W * smaller) by (apply Qmult_le_0_compat; lra).
  repeat split; lra.
Qed.

Lemma isInViewport_overlaps_witness :
  (rect_top (mkRect 100 300 50 400) <= number_or 800 0
   /\ 0 <= rect_bottom (mkRect 100 300 50 400)
   /\ rect_left (mkRect 100 300 50 400) <= number_or 1200 0
   /\ 0 <= rect_right (mkRect 100 300 50 400))
  /\ isInViewport (mkRect 100 300 50 400) 800 0 1200 0 0.1 = true.
Proof.
  apply (isInViewport_overlaps (mkRect 100 300 50 400) 800 0 1200 0 0.2 0.1);
    try reflexivity; vm_compute; discriminate.
Defined.

(** The two branches of [ease] in closed form, for a positive duration. *)
Lemma ease_value (t b c d : Q) :
  0 < d ->
  exists e,
    ease t b c d = Some e
    /\ (t / d < 1 # 2 -> e == b + 2 * c * (t / d) * (t / d))
    /\ (1 # 2 <= t / d
        -> e == b + c - 2 * c * (t / d - 1) * (t / d - 1)).
Proof.
  intro Hd. unfold ease.
  rewrite (div_defined d 2) by discriminate. cbv [Js.bind].
  assert (Hh : ~ d / 2 == 0).
  { intro E. assert (0 < d / 2) by (apply Qlt_shift_div_l; lra). lra. }
  rewrite (div_defined t (d / 2) Hh).
  assert (Dz : ~ d == 0) by lra.
  assert (U : t / (d / 2) == 2 * (t / d)) by (field; exact Dz).
  destruct (Js.lt (t / (d / 2)) 1) eqn:B; js_reflect.
  - rewrite (div_defined c 2) by discriminate.
    eexists. split; [reflexivity|]. split; intro C.
    + field. exact Dz.
    + exfalso. lra.
  - rewrite (div_defined (- c) 2) by discriminate.
    eexists. split; [reflexivity|]. split; intro C.
    + exfalso. lra.
    + field. exact Dz.
Qed.

(** X20: for a positive duration the easing starts at the start position
    and reaches the target at the end of the duration, whichever way the
    page scrolls.  For a scroll downwards (a distance that is not negative)
    it never passes the target, whatever the time, and up to the end of the
    duration it never goes back: it stays at or beyond the start position
    and does not decrease with time. *)
Theorem ease_in_out (b c d : Q) :
  0 < d ->
  (exists e0, ease 0 b c d = Some e0 /\ e0 == b)
  /\ (exists e1, ease d b c d = Some e1 /\ e1 == b + c)
  /\ (0 <= c ->
      forall t t' : Q,
        0 <= t -> t <= t' ->
        exists e e',
          ease t b c d = Some e /\ ease t' b c d = Some e'
          /\ e <= b + c /\ e' <= b + c
          /\ (t' <= d -> b <= e /\ e <= e')).
Proof.
  intro Hd.
  assert (Dz : ~ d == 0) by lra.
  split; [|split].
  - destruct (ease_value 0 b c d Hd) as (e & E & F & _).
    exists e. split; [exact E|].
    assert (Z : 0 / d == 0) by (field; exact Dz).
    rewrite F by (rewrite Z; reflexivity). rewrite Z. ring.
  - destruct (ease_value d b c d Hd) as (e & E & _ & S).
    exists e. split; [exact E|].
    assert (Z : d / d == 1) by (field; exact Dz).
    rewrite S by (rewrite Z; discriminate). rewrite Z. ring.
  - intros Hc t t' Ht Htt.
    destruct (ease_value t b c d Hd) as (e & E & F & S).
    destruct (ease_value t' b c d Hd) as (e' & E' & F' & S').
    exists e, e'. split; [exact E|]. split; [exact E'|].
    assert (P : 0 <= t / d) by (apply Qle_shift_div_l; lra).
    assert (PP : t / d <= t' / d).
    { apply Qmult_le_compat_r;
        [exact Htt | apply Qlt_le_weak, Qinv_lt_0_compat; exact Hd]. }
    set (s := t / d) in *. set (s' := t' / d) in *.
    assert (Q1 : forall x, 0 <= c * (x * x)).
    { intro x. apply Qmult_le_0_compat; [exact Hc|].
      destruct (Qlt_le_dec x 0).
      - setoid_replace (x * x) with ((- x) * (- x)) by ring.
        apply Qmult_le_0_compat; lra.
      - apply Qmult_le_0_compat; lra. }
    assert (Up : forall x ex,
               (x < 1 # 2 -> ex == b + 2 * c * x * x) ->
               (1 # 2 <= x -> ex == b + c - 2 * c * (x - 1) * (x - 1)) ->
               0 <= x -> ex <= b + c).
    { intros x ex Fx Sx Px. destruct (Qlt_le_dec x (1 # 2)) as [L|L].
      - rewrite (Fx L).
        assert (c * (x * x) <= c * ((1 # 2) * (1 # 2))).
        { apply Qmult_le_nonneg_l; [exact Hc|].
          apply (Qle_trans _ (x * (1 # 2))).
          - apply Qmult_le_nonneg_l; lra.
          - apply Qmult_le_compat_r; lra. }
        lra.
      - rewrite (Sx L). pose proof (Q1 (x - 1)). lra. }
    split; [apply (Up s e F S P)|].
    split; [apply (Up s' e' F' S'); lra|].
    intro Le.
    assert (P1 : s' <= 1).
    { unfold s'. apply Qle_shift_div_r; lra. }
    assert (Sq : forall x y, 0 <= x -> x <= y -> c * (x * x) <= c * (y * y)).
    { intros x y Px Pxy. apply Qmult_le_nonneg_l; [exact Hc|].
      apply (Qle_trans _ (x * y)).
      - apply Qmult_le_nonneg_l; assumption.
      - apply Qmult_le_compat_r; lra. }
    destruct (Qlt_le_dec s (1 # 2)) as [L|L];
      destruct (Qlt_le_dec s' (1 # 2)) as [L'|L'].
    + rewrite (F L), (F' L'). pose proof (Q1 s). pose proof (Sq s s' P PP).
      split; lra.
    + rewrite (F L), (S' L'). pose proof (Q1 s).
      pose proof (Sq s (1 # 2) P ltac:(lra)) as A.
      pose proof (Sq (1 - s') (1 # 2) ltac:(lra) ltac:(lra)) as B.
      setoid_replace ((1 - s') * (1 - s')) with ((s' - 1) * (s' - 1)) in B
        by ring.
      split; lra.
    + exfalso. lra.
    + rewrite (S L), (S' L').
      pose proof (Sq (1 - s') (1 - s) ltac:(lra) ltac:(lra)) as A.
      setoid_replace ((1 - s') * (1 - s')) with ((s' - 1) * (s' - 1)) in A
        by ring.
      setoid_replace ((1 - s) * (1 - s)) with ((s - 1) * (s - 1)) in A
        by ring.
      pose proof (Sq (1 - s) (1 # 2) ltac:(lra) ltac:(lra)) as B.
      setoid_replace ((1 - s) * (1 - s)) with ((s - 1) * (s - 1)) in B
        by ring.
      split; lra.
Qed.

Lemma ease_in_out_witness :
  exists e1, ease 1000 3200 (-3000) 1000 = Some e1 /\ e1 == 3200 + -3000.
Proof.
  apply (proj1 (proj2 (ease_in_out 3200 (-3000) 1000 eq_refl))).
Defined.

(** * The FAQ accordion *)

Lemma close_other_inactive (items : list FaqItem) :
  filter faq_active (map close_other items) = [].
Proof. induction items as [|it tl IH]; [reflexivity | exact IH]. Qed.

Lemma update_items_length
    (current other : FaqItem -> FaqItem) (items : list FaqItem) :
  forall index : nat,
    length (update_items index current other items) = length items.
Proof.
  induction items as [|it tl IH]; intros [|k]; cbn [update_items length];
    try reflexivity.
  - rewrite length_map. reflexivity.
  - rewrite IH. reflexivity.
Qed.

Lemma update_items_nth
    (current other : FaqItem -> FaqItem) (items : list FaqItem) :
  forall index j : nat,
    nth_error (update_items index current other items) j
    = option_map (if Nat.eqb j index then current else other)
        (nth_error items j).
Proof.
  induction items as [|it tl IH]; intros index j.
  - destruct j; destruct index; reflexivity.
  - destruct index as [|k]; destruct j as [|j];
      cbn [update_items nth_error Nat.eqb option_map]; try reflexivity.
    + rewrite nth_error_map. reflexivity.
    + rewrite IH. reflexivity.
Qed.

Lemma update_items_open
    (current : FaqItem -> FaqItem) (items : list FaqItem) :
  forall (index : nat) (item : FaqItem),
    nth_error items index = Some item ->
    open_items (update_items index current close_other items)
    = (if faq_active (current item) then 1 else 0)%nat.
Proof.
  unfold open_items.
  induction items as [|it tl IH]; intros [|k] item H;
    try discriminate H; cbn [nth_error] in H; cbn [update_items filter].
  - injection H as ->. destruct (faq_active (current item));
      cbn [length]; rewrite close_other_inactive; reflexivity.
  - cbn [close_other faq_active]. apply IH. exact H.
Qed.

(** X22: the accordion never shows two answers.  A click on an item of the
    list keeps the number of items, flips the clicked item and closes every
    other one, so that afterwards the clicked item is the only one that can
    be open; this holds even when the handler throws because the item has
    no answer element.  When the click opens an item with an answer, the
    answer's maximal height is set to its scroll height in pixels. *)
Theorem toggleFAQ_one_open
    (index : nat) (items : list FaqItem) (item : FaqItem) :
  nth_error items index = Some item ->
  let after := page_after (toggleFAQ index items) in
  length after = length items
  /\ open_items after = (if faq_active item then 0 else 1)%nat
  /\ (exists clicked,
        nth_error after index = Some clicked
        /\ faq_active clicked = negb (faq_active item)
        /\ forall a,
             faq_active item = false -> faq_answer item = Some a ->
             faq_answer clicked
             = Some (mkAnswer
                       (Str.toString (scrollHeight a) ++ Str.of_string "px")
                       (scrollHeight a)))
  /\ (forall j other,
        j <> index -> nth_error after j = Some other ->
        faq_active other = false)
  /\ (faq_answer item <> None ->
      toggleFAQ index items = Done after).
Proof.
  intro H. unfold toggleFAQ. rewrite H.
  destruct (faq_active item) eqn:A; destruct (faq_answer item) as [a|] eqn:B;
    cbn [page_after]; cbv zeta;
    (split; [apply update_items_length|]);
    (split; [rewrite (update_items_open _ items index item H);
             reflexivity|]);
    (split; [rewrite update_items_nth, Nat.eqb_refl, H; cbn [option_map];
             eexists; split; [reflexivity|]; split; [reflexivity|];
             intros a' Ea Eb; try discriminate Ea; try discriminate Eb;
             rewrite B in *; injection Eb as <-; reflexivity|]);
    (split; [intros j other Nj Hj; rewrite update_items_nth in Hj;
             rewrite (proj2 (Nat.eqb_neq j index) Nj) in Hj;
             destruct (nth_error items j); [|discriminate Hj];
             injection Hj as <-; reflexivity|]);
    intro C; try reflexivity; contradiction.
Qed.

Lemma toggleFAQ_one_open_witness :
  open_items
    (page_after
       (toggleFAQ 1
          [mkFaqItem true (Some (mkAnswer (Str.of_string "120px") 120));
           mkFaqItem false (Some (mkAnswer (Str.of_string "0") 80))]))
  = 1%nat.
Proof.
  apply (toggleFAQ_one_open 1
           [mkFaqItem true (Some (mkAnswer (Str.of_string "120px") 120));
            mkFaqItem false (Some (mkAnswer (Str.of_string "0") 80))]
           (mkFaqItem false (Some (mkAnswer (Str.of_string "0") 80)))).
  reflexivity.
Defined.

(** * The mobile menu *)

Lemma nav_step_aria (nav : NavState) (e : NavEvent) :
  aria_expanded (nav_step nav e)
  = string_of_bool (menu_active (nav_step nav e)).
Proof. destruct e; reflexivity. Qed.

Lemma nav_step_sync (nav : NavState) (e : NavEvent) :
  menu_active nav = toggle_active nav ->
  menu_active (nav_step nav e) = toggle_active (nav_step nav e).
Proof.
  intro H. destruct e; cbn [nav_step toggleMobileMenu closeMobileMenu
                             menu_active toggle_active];
    [rewrite H|]; reflexivity.
Qed.

(** X23: the menu and its button stay in step.  Starting from a page where
    the menu and the toggle button agree, after any sequence of clicks on
    the button and closings they still agree, the [aria-expanded] attribute
    says whether the menu is open, and the menu is open exactly when the
    number of clicks since the last closing is odd (counting from the
    initial state when nothing closed it). *)
Theorem mobile_menu_in_step (events : list NavEvent) :
  forall nav : NavState,
    menu_active nav = toggle_active nav ->
    let after := fold_left nav_step events nav in
    menu_active after = toggle_active after
    /\ menu_active after
       = xorb (Nat.odd (fst (toggles_since_close events)))
           (if snd (toggles_since_close events) then false
            else menu_active nav)
    /\ (events <> [] ->
        aria_expanded after = string_of_bool (menu_active after)).
Proof.
  induction events as [|e later IH]; intros nav H.
  - cbn [fold_left toggles_since_close fst snd Nat.odd].
    split; [exact H|]. split; [|intro C; contradiction].
    destruct (menu_active nav); reflexivity.
  - cbn [fold_left].
    destruct (IH (nav_step nav e) (nav_step_sync nav e H)) as (S1 & S2 & S3).
    split; [exact S1|]. split.
    + rewrite S2. cbn [toggles_since_close].
      destruct (toggles_since_close later) as [n closed].
      cbn [fst snd]. destruct closed; cbn [fst snd]; [reflexivity|].
      destruct e; cbn [fst snd nav_step toggleMobileMenu closeMobileMenu
                       menu_active].
      * rewrite Nat.odd_succ, <- Nat.negb_odd.
        destruct (Nat.odd n), (menu_active nav); reflexivity.
      * reflexivity.
    + intros _. destruct later as [|e' later'].
      * cbn [fold_left]. apply nav_step_aria.
      * apply S3. discriminate.
Qed.

Lemma mobile_menu_in_step_witness :
  menu_active
    (fold_left nav_step [ClickToggle; CloseMenu; ClickToggle]
       (mkNav false false ""))
  = toggle_active
      (fold_left nav_step [ClickToggle; CloseMenu; ClickToggle]
         (mkNav false false "")).
Proof.
  apply (mobile_menu_in_step [ClickToggle; CloseMenu; ClickToggle]
           (mkNav false false "")).
  reflexivity.
Defined.

(** * The table of contents *)

Lemma last_reached_none (pos : Q) (hs : list Heading) :
  Forall (fun h => pos < heading_top h) hs ->
  forall (k : nat) (acc : option (nat * Heading)),
    last_reached pos k hs acc = acc.
Proof.
  induction 1 as [|h tl Hh _ IH]; intros k acc; [reflexivity|].
  cbn [last_reached]. rewrite (proj2 (le_false _ _) Hh). apply IH.
Qed.

Lemma last_reached_some (pos : Q) (hs : list Heading) :
  forall (i k : nat) (h : Heading) (acc : option (nat * Heading)),
    nth_error hs i = Some h ->
    heading_top h <= pos ->
    (forall j h', (i < j)%nat -> nth_error hs j = Some h' ->
                  pos < heading_top h') ->
    last_reached pos k hs acc = Some ((k + i)%nat, h).
Proof.
  induction hs as [|x tl IH]; intros i k h acc Hn Hr Hl.
  - destruct i; discriminate Hn.
  - destruct i as [|i]; cbn [nth_error] in Hn; cbn [last_reached].
    + injection Hn as ->. rewrite (proj2 (le_true _ _) Hr).
      rewrite last_reached_none; [rewrite Nat.add_0_r; reflexivity|].
      apply Forall_forall. intros h' Hin.
      destruct (In_nth_error _ _ Hin) as [j Hj].
      apply (Hl (S j) h'); [lia | exact Hj].
    + rewrite (IH i (S k) h _ Hn Hr).
      * f_equal. f_equal. lia.
      * intros j h' Lt Hj. apply (Hl (S j) h'); [lia | exact Hj].
Qed.

(** X24: the table of contents follows the last heading, in document
    order, whose top is at most 150 pixels below the scroll position.  The
    update never changes the headings nor the targets of the links, and
    repeating it at the same scroll position changes nothing more.  While
    no heading is reached the component is left as it is.  When heading [i]
    is the last one reached it becomes the current heading, and unless it
    already was, the links marked active are then exactly those that point
    to it. *)
Theorem updateActiveLink_follows (toc : Toc) (pageYOffset : Q) :
  let after := updateActiveLink toc pageYOffset in
  toc_headings after = toc_headings toc
  /\ map link_href (tocLinks after) = map link_href (tocLinks toc)
  /\ updateActiveLink after pageYOffset = after
  /\ (Forall (fun h => pageYOffset + 150 < heading_top h) (toc_headings toc)
      -> after = toc)
  /\ (forall i h,
        nth_error (toc_headings toc) i = Some h ->
        heading_top h <= pageYOffset + 150 ->
        (forall j h', (i < j)%nat ->
                      nth_error (toc_headings toc) j = Some h' ->
                      pageYOffset + 150 < heading_top h') ->
        currentActive after = Some i
        /\ (currentActive toc = Some i -> after = toc)
        /\ (currentActive toc <> Some i ->
            forall link,
              In link (tocLinks after) ->
              (link_active link = true
               <-> link_href link = ("#" ++ heading_id h)%string))).
Proof.
  cbv zeta. unfold updateActiveLink.
  destruct (last_reached (pageYOffset + 150) 0 (toc_headings toc) None)
    as [[index active]|] eqn:L.
  - destruct (same_heading (currentActive toc) index) eqn:S.
    + rewrite L, S.
      split; [reflexivity|]. split; [reflexivity|]. split; [reflexivity|].
      split; [reflexivity|].
      intros i h Hn Hr Hl.
      rewrite (last_reached_some _ _ i 0 h None Hn Hr Hl) in L.
      injection L as <- _. cbn [Nat.add] in S.
      destruct (currentActive toc) as [c|]; [|discriminate S].
      apply Nat.eqb_eq in S. subst c.
      split; [reflexivity|]. split; [reflexivity|].
      intro C. contradiction C. reflexivity.
    + cbn [toc_headings tocLinks currentActive]. rewrite L.
      cbn [same_heading]. rewrite Nat.eqb_refl.
      split; [reflexivity|]. split.
      { rewrite map_map. reflexivity. }
      split; [reflexivity|]. split.
      { intro F. rewrite last_reached_none in L by exact F. discriminate L. }
      intros i h Hn Hr Hl.
      rewrite (last_reached_some _ _ i 0 h None Hn Hr Hl) in L.
      injection L as <- <-. cbn [Nat.add] in *.
      split; [reflexivity|]. split.
      * intro C. rewrite C in S. cbn [same_heading] in S.
        rewrite Nat.eqb_refl in S. discriminate S.
      * intros _ link Hin. apply in_map_iff in Hin.
        destruct Hin as (l0 & <- & _). cbn [link_active link_href].
        apply String.eqb_eq.
  - rewrite L.
    split; [reflexivity|]. split; [reflexivity|]. split; [reflexivity|].
    split; [reflexivity|].
    intros i h Hn Hr Hl.
    rewrite (last_reached_some _ _ i 0 h None Hn Hr Hl) in L.
    discriminate L.
Qed.

Lemma updateActiveLink_follows_witness :
  updateActiveLink
    (mkToc [mkTocLink "#intro" true; mkTocLink "#costs" false]
       [mkHeading "intro" 200; mkHeading "costs" 900] None)
    0
  = mkToc [mkTocLink "#intro" true; mkTocLink "#costs" false]
      [mkHeading "intro" 200; mkHeading "costs" 900] None.
Proof.
  apply (proj1 (proj2 (proj2 (proj2
           (updateActiveLink_follows
              (mkToc [mkTocLink "#intro" true; mkTocLink "#costs" false]
                 [mkHeading "intro" 200; mkHeading "costs" 900] None)
              0))))).
  repeat constructor.
Defined.

(** * The contrast preference *)

Lemma clickContrastToggle_saved (st : ContrastState) :
  setupColorContrastToggle (saved_contrast (clickContrastToggle st))
  = clickContrastToggle st.
Proof. destruct st as [[|] saved]; reflexivity. Qed.

(** X25: the contrast preference survives a reload: once the toggle has
    been clicked at least once, loading the page again with the storage the
    clicks left puts the page in the very state the last click left it in.
    Without a saved preference the page loads without high contrast. *)
Theorem contrast_preference_persists
    (clicks : nat) (st : ContrastState) :
  (0 < clicks)%nat ->
  let before := Nat.iter clicks clickContrastToggle st in
  setupColorContrastToggle (saved_contrast before) = before
  /\ high_contrast before
     = (if Nat.odd clicks then negb (high_contrast st) else high_contrast st)
  /\ high_contrast (setupColorContrastToggle None) = false.
Proof.
  intros H. destruct clicks as [|n]; [lia|]. cbv zeta.
  split; [|split; [|reflexivity]].
  - cbn [Nat.iter]. apply clickContrastToggle_saved.
  - clear H. induction n as [|n IH]; [reflexivity|].
    change (Nat.iter (S (S n)) clickContrastToggle st)
      with (clickContrastToggle (Nat.iter (S n) clickContrastToggle st)).
    cbn [clickContrastToggle high_contrast]. rewrite IH.
    rewrite (Nat.odd_succ (S n)), <- Nat.negb_odd.
    destruct (Nat.odd (S n)), (high_contrast st); reflexivity.
Qed.

Lemma contrast_preference_persists_witness :
  setupColorContrastToggle
    (saved_contrast (Nat.iter 3 clickContrastToggle (mkContrast false None)))
  = Nat.iter 3 clickContrastToggle (mkContrast false None).
Proof.
  apply (contrast_preference_persists 3 (mkContrast false None)). lia.
Defined.
